(** * youtube_transcript_downloader.py: a shallow embedding and its properties

    The Python module downloads video transcripts and metadata, writes them
    as JSON records, enumerates a channel's uploads and looks for duplicate
    record files.  This development embeds its functions as Rocq functions:

    - a Python [str] is a list of Unicode code points;
    - JSON-shaped values (API responses, metadata maps, persisted records)
      are a [json] tree, and dynamic typing errors become raised exceptions;
    - effects (printing, logging, provider calls, file writes) are events of
      a trace, threaded by a small writer/exception monad;
    - the remote providers and the file system are fields of a [World]
      record, the input of every effectful function. *)

From Stdlib Require Import ZArith NArith QArith List String Ascii Lia Bool.
From stdpp Require Import gmap.
Import ListNotations.

Set Warnings "-register-all".
Local Open Scope N_scope.
Local Open Scope list_scope.

(** ** Python strings *)

(** A character is a Unicode code point, a [str] a sequence of them. *)
Abbreviation char := N (only parsing).
Abbreviation str := (list N) (only parsing).

(** An ASCII literal of the source. *)
Definition lit (s : string) : str :=
  List.map N_of_ascii (list_ascii_of_string s).
Arguments lit s%_string.

Definition in_range (lo hi c : char) : bool := (lo <=? c) && (c <=? hi).

(** [str.isspace] for one character, which is also what [\s] matches in a
    [str] pattern: the ASCII white space and separators U+0009..U+000D,
    U+001C..U+0020, and the Unicode white-space characters. *)
Definition is_space (c : char) : bool :=
  in_range 9 13 c || in_range 28 32 c || (c =? 133) || (c =? 160)
  || (c =? 5760) || in_range 8192 8202 c || (c =? 8232) || (c =? 8233)
  || (c =? 8239) || (c =? 8287) || (c =? 12288).

Definition is_digit (c : char) : bool := in_range 48 57 c.

Definition is_ascii_alnum (c : char) : bool :=
  is_digit c || in_range 65 90 c || in_range 97 122 c.

Fixpoint drop_while (p : char -> bool) (s : str) : str :=
  match s with
  | [] => []
  | c :: s' => if p c then drop_while p s' else s
  end.

Fixpoint take_while (p : char -> bool) (s : str) : str :=
  match s with
  | [] => []
  | c :: s' => if p c then c :: take_while p s' else []
  end.

(** [str.lstrip()], [str.rstrip()] and [str.strip()] with no argument. *)
Definition lstrip (s : str) : str := drop_while is_space s.

Fixpoint rstrip (s : str) : str :=
  match s with
  | [] => []
  | c :: s' =>
      match rstrip s' with
      | [] => if is_space c then [] else [c]
      | r => c :: r
      end
  end.

Definition strip (s : str) : str := rstrip (lstrip s).

Fixpoint startswith (s p : str) {struct p} : bool :=
  match p, s with
  | [], _ => true
  | _ :: _, [] => false
  | a :: p', b :: s' => (a =? b) && startswith s' p'
  end.

Definition endswith (s p : str) : bool := startswith (List.rev s) (List.rev p).

(** [s[:n]] with Python's reading of a negative bound. *)
Definition slice_to (n : Z) (s : str) : str :=
  if (0 <=? n)%Z then List.firstn (Z.to_nat n) s
  else List.firstn (List.length s - Z.to_nat (- n))%nat s.

(** [re.sub(p, repl, s)] for a pattern [p] that is one character class:
    every matching character is replaced by [repl]. *)
Fixpoint re_sub_class (cls : char -> bool) (repl : str) (s : str) : str :=
  match s with
  | [] => []
  | c :: s' =>
      if cls c then repl ++ re_sub_class cls repl s'
      else c :: re_sub_class cls repl s'
  end.

(** [re.sub(p, repl, s)] for a pattern [p] of the form [class+]: every
    maximal run of matching characters is replaced by one [repl].
    [in_run] tells that the previous character belonged to a run. *)
Fixpoint re_sub_runs (cls : char -> bool) (repl : str) (in_run : bool)
    (s : str) : str :=
  match s with
  | [] => []
  | c :: s' =>
      if cls c then
        if in_run then re_sub_runs cls repl true s'
        else repl ++ re_sub_runs cls repl true s'
      else c :: re_sub_runs cls repl false s'
  end.

(** [s.split(sep)] for a non-empty separator: [skip] counts the characters
    of a separator still to be passed over, [cur] is the piece being read,
    reversed. *)
Fixpoint split_go (sep : str) (skip : nat) (cur : str) (s : str) : list str :=
  match s with
  | [] => [List.rev cur]
  | c :: s' =>
      match skip with
      | S k => split_go sep k cur s'
      | O =>
          if startswith s sep
          then List.rev cur :: split_go sep (List.length sep - 1) [] s'
          else split_go sep O (c :: cur) s'
      end
  end.

Definition split (sep s : str) : list str := split_go sep 0 [] s.

(** [s.split(sep)[-1]] and [s.split(sep)[0]]. *)
Definition split_last (sep s : str) : str := List.last (split sep s) [].
Definition split_first (sep s : str) : str := List.hd [] (split sep s).

(** [sep in s]. *)
Fixpoint contains (s sep : str) : bool :=
  startswith s sep
  || match s with
     | [] => false
     | _ :: s' => contains s' sep
     end.

(** ** Configuration: [DEFAULT_CONFIG] *)

Definition TRANSCRIPT_FILENAME_LENGTH : Z := 36.

(** ** Sanitizers *)

Section Sanitize.

(** [str.isalnum] on the characters above U+007F is a table of the Unicode
    database; it is a parameter here.  On ASCII it is spelled out. *)
Variable unicode_alnum : char -> bool.

(** What [\w] matches in a [str] pattern. *)
Definition is_word (c : char) : bool :=
  if c <? 128 then is_ascii_alnum c || (c =? 95) else unicode_alnum c.

(** The class [[^\w\-\s]] of [REGEX_PATTERNS["sanitize_filename"]]. *)
Definition pat_sanitize_filename (c : char) : bool :=
  negb (is_word c || (c =? 45) || is_space c).

Definition sanitize_filename (name : str) (max_length : Z) : str :=
  let sanitized_filename :=
    slice_to max_length (strip (re_sub_class pat_sanitize_filename [] name)) in
  match sanitized_filename with
  | [] => lit "untitled"
  | _ => sanitized_filename
  end.

End Sanitize.

(** The class [[\\^$.|?*+(){}[\]]] of [sanitize_text]. *)
Definition regex_special_chars (c : char) : bool :=
  List.existsb (N.eqb c) (lit "\^$.|?*+(){}[]").

(** The class of code points outside U+0000..U+007F and U+0080..U+FFFF,
    the pattern [emoji_and_non_utf8] of [sanitize_text]. *)
Definition emoji_and_non_utf8 (c : char) : bool :=
  negb (in_range 0 127 c || in_range 128 65535 c).

Definition sanitize_text (text : str) : str :=
  match text with
  | [] => []
  | _ =>
      let text := re_sub_class regex_special_chars [] text in
      let text := re_sub_class emoji_and_non_utf8 [] text in
      let text := re_sub_runs is_space (lit " ") false text in
      strip text
  end.

(** ** Python values *)

(** JSON-shaped Python values: [None], [bool], [int], [float], [str], [list]
    and [dict].  A finite float is the rational it denotes; a [dict] is the
    list of its items, looked up from the front. *)
Inductive json :=
| JNull
| JBool (b : bool)
| JInt (z : Z)
| JFloat (q : Q)
| JStr (s : str)
| JList (l : list json)
| JDict (d : list (str * json)).

Definition dict := list (str * json).

(** Exceptions, as far as the module tells them apart.  [ProviderError] is
    any other exception an external call raises. *)
Inductive exn :=
| KeyError (key : str)
| IndexError
| TypeError
| AttributeError
| ValueError (msg : str) (args : list json)
| StopIteration
| TranscriptsDisabled
| NoTranscriptFound
| UnicodeEncodeError
| ProviderError (msg : str).

Definition result (A : Type) : Type := exn + A.

(** Truth value of a Python object, as [if x:] and [not x] read it. *)
Definition truthy (v : json) : bool :=
  match v with
  | JNull => false
  | JBool b => b
  | JInt z => negb (z =? 0)%Z
  | JFloat q => negb (Qnum q =? 0)%Z
  | JStr s => match s with [] => false | _ => true end
  | JList l => match l with [] => false | _ => true end
  | JDict d => match d with [] => false | _ => true end
  end.

Fixpoint str_eqb (a b : str) : bool :=
  match a, b with
  | [], [] => true
  | x :: a', y :: b' => (x =? y) && str_eqb a' b'
  | _, _ => false
  end.

(** [d.get(key)] as an option, [key in d], [d.get(key, default)], [d[key]]. *)
Fixpoint dict_lookup (key : str) (d : dict) : option json :=
  match d with
  | [] => None
  | (k, v) :: d' => if str_eqb k key then Some v else dict_lookup key d'
  end.

Definition dict_has (key : str) (d : dict) : bool :=
  match dict_lookup key d with Some _ => true | None => false end.

Definition dict_get (d : dict) (key : str) (default : json) : json :=
  match dict_lookup key d with Some v => v | None => default end.

Definition dict_item (d : dict) (key : str) : result json :=
  match dict_lookup key d with Some v => inr v | None => inl (KeyError key) end.

(** The same on a value that need not be a [dict]: [v.get(key, default)]
    raises [AttributeError] on anything else (every such call of the module
    sits under an [except Exception]). *)
Definition get (v : json) (key : str) (default : json) : result json :=
  match v with
  | JDict d => inr (dict_get d key default)
  | _ => inl AttributeError
  end.

(** [v[key]] for a string key. *)
Definition item (v : json) (key : str) : result json :=
  match v with
  | JDict d => dict_item d key
  | _ => inl TypeError
  end.

(** [v[0]]. *)
Definition item0 (v : json) : result json :=
  match v with
  | JList (x :: _) => inr x
  | JList [] => inl IndexError
  | JStr (c :: _) => inr (JStr [c])
  | JStr [] => inl IndexError
  | JDict _ => inl (KeyError (lit "0"))
  | _ => inl TypeError
  end.

(** [v[:n]] for a non-negative [n]. *)
Definition slice_prefix (n : nat) (v : json) : result json :=
  match v with
  | JStr s => inr (JStr (List.firstn n s))
  | JList l => inr (JList (List.firstn n l))
  | _ => inl TypeError
  end.

(** [for x in v]: the elements iterated over. *)
Definition iterate (v : json) : result (list json) :=
  match v with
  | JList l => inr l
  | JStr s => inr (List.map (fun c => JStr [c]) s)
  | JDict d => inr (List.map (fun kv => JStr (fst kv)) d)
  | _ => inl TypeError
  end.

(** ** Timestamps: [parse_time_format] *)

(** [isinstance(seconds, (int, float))], a [bool] being an [int]. *)
Inductive number :=
| NInt (z : Z)
| NFloat (q : Q).

Definition as_number (v : json) : option number :=
  match v with
  | JInt z => Some (NInt z)
  | JBool b => Some (NInt (if b then 1 else 0))
  | JFloat q => Some (NFloat q)
  | _ => None
  end.

(** [int(x)]: truncation toward zero. *)
Definition py_int (x : number) : Z :=
  match x with
  | NInt z => z
  | NFloat q => Z.quot (Qnum q) (Z.pos (Qden q))
  end.

(** Decimal digits of a natural number, most significant first. *)
Fixpoint dec_digits_fuel (fuel : nat) (n : N) (acc : str) : str :=
  match fuel with
  | O => acc
  | S f =>
      if n <? 10 then (48 + n) :: acc
      else dec_digits_fuel f (n / 10) ((48 + n mod 10) :: acc)
  end.

Definition dec_digits (n : N) : str :=
  dec_digits_fuel (S (N.to_nat (N.log2 n))) n [].

(** The format [{z:02}] of an [int]: at least two characters, padded with
    zeros after the sign. *)
Definition format_02 (z : Z) : str :=
  if (z <? 0)%Z then 45 :: dec_digits (Z.to_N (- z))
  else
    let d := dec_digits (Z.to_N z) in
    List.repeat 48 (2 - List.length d) ++ d.

Definition parse_time_format (seconds : json) : result str :=
  match as_number seconds with
  | None => inl (ValueError (lit "Expected a number, got: ") [seconds])
  | Some x =>
      let total_seconds := py_int x in
      let hours := (total_seconds / 3600)%Z in
      let remainder := (total_seconds mod 3600)%Z in
      let minutes := (remainder / 60)%Z in
      let seconds := (remainder mod 60)%Z in
      inr (if negb (hours =? 0)%Z
           then format_02 hours ++ lit ":" ++ format_02 minutes
                ++ lit ":" ++ format_02 seconds
           else format_02 minutes ++ lit ":" ++ format_02 seconds)
  end.

(** ** Effects *)

(** The pieces of an f-string: literal text or a [str] variable, any other
    interpolated value, an interpolated exception. *)
Inductive part :=
| T (s : str)
| V (v : json)
| E (e : exn).

Definition message := list part.

(** What a run does to the outside, in order.  Printing is taken to
    succeed: how the console encodes is the environment's.  The three
    [EWrite] events
    with a content stand for a file that was written whole; [EWritePartial]
    for a file that was created or emptied and then left with a part of
    what was to be written. *)
Inductive event :=
| EInput (prompt : str)
| EPrint (msg : message)
| ELogWarning (msg : message)
| ELogError (msg : message)
| EVideosList (id : str)
| ESearchList (q : str)
| EChannelsList (id : json)
| EPlaylistItemsList (playlistId pageToken : json)
| EGetTranscript (video_id : str)
| EOpenRead (path : str)
| EMakedirs (path : str)
| EWriteJson (path : str) (data : json)
| EWriteCsv (path : str) (header : list str) (rows : list (list json))
| EWriteText (path : str) (content : str)
| EWritePartial (path : str).

(** How a computation ends: with a value, with an exception, or not within
    the steps it was given ([Diverged], which no handler catches). *)
Inductive outcome (A : Type) :=
| Done (a : A)
| Raised (e : exn)
| Diverged.
Arguments Done {A} a.
Arguments Raised {A} e.
Arguments Diverged {A}.

Definition M (A : Type) : Type := list event * outcome A.

Definition ret {A} (a : A) : M A := ([], Done a).
Definition raise {A} (e : exn) : M A := ([], Raised e).
Definition emit (ev : event) : M unit := ([ev], Done tt).
Definition lift {A} (r : result A) : M A :=
  ([], match r with inl e => Raised e | inr a => Done a end).

Definition bind {A B} (m : M A) (k : A -> M B) : M B :=
  match snd m with
  | Done a => (fst m ++ fst (k a), snd (k a))
  | Raised e => (fst m, Raised e)
  | Diverged => (fst m, Diverged)
  end.

(** [try: m except Exception as e: handler(e)]. *)
Definition try {A} (m : M A) (handler : exn -> M A) : M A :=
  match snd m with
  | Raised e => (fst m ++ fst (handler e), snd (handler e))
  | _ => m
  end.

Notation "x <- m ;; k" := (bind m (fun x => k))
  (at level 100, m at next level, right associativity, only parsing).
Notation "m ;;; k" := (bind m (fun _ => k))
  (at level 100, right associativity, only parsing).

(** A [for] loop threading an accumulator. *)
Fixpoint for_each {A S} (xs : list A) (body : S -> A -> M S) (s : S) : M S :=
  match xs with
  | [] => ret s
  | x :: xs' => s' <- body s x ;; for_each xs' body s'
  end.

Definition trace {A} (m : M A) : list event := fst m.

(** ** The world outside *)

(** One entry of a transcript, as the transcript provider returns it. *)
Record transcript_entry := { text : str; start : number }.

(** The external collaborators, each a function of its request: the
    interpreter's Unicode table, the console, the metadata provider's four
    listings, the transcript provider, [isodate.parse_duration] (giving
    [total_seconds()] of what it parsed), and what the file system holds.
    Directory creation and the opening of a file for writing are taken to
    succeed; what is written may still fail to encode. *)
Record World := {
  unicode_alnum : char -> bool;
  input : str -> str;
  videos_list : str -> result dict;
  search_list : str -> result dict;
  channels_list : json -> result dict;
  playlist_items_list : json -> json -> result dict;
  get_transcript : str -> result (list transcript_entry);
  isodate_parse_duration : json -> result Q;
  path_exists : str -> bool;
  walk : str -> list (str * list str);
  read_bytes : str -> result (list Byte.byte);
  readlines : str -> result (list str);
  csv_reader : str -> result (list (list str))
}.

(** ** Text files

    Every file the module writes is opened with [encoding="utf-8"].  That
    codec refuses the surrogate code points U+D800..U+DFFF, which a [str]
    can hold (JSON escapes and undecodable file names give them): the write
    raises [UnicodeEncodeError] and what was written before stays in the
    file. *)

Definition is_surrogate (c : char) : bool := in_range 55296 57343 c.

Definition utf8_encodable (s : str) : bool :=
  List.forallb (fun c => negb (is_surrogate c)) s.

(** The strings [json.dump(..., ensure_ascii=False)] writes as they are:
    every [str] of the value, keys included. *)
Fixpoint json_encodable (v : json) : bool :=
  match v with
  | JStr s => utf8_encodable s
  | JList l => List.forallb json_encodable l
  | JDict d =>
      List.forallb
        (fun kv => utf8_encodable (fst kv) && json_encodable (snd kv)) d
  | _ => true
  end.

(** [with open(path, "w", encoding="utf-8") as f: json.dump(data, f, ...)]. *)
Definition write_json (path : str) (data : json) : M unit :=
  if json_encodable data then emit (EWriteJson path data)
  else emit (EWritePartial path) ;;; raise UnicodeEncodeError.

(** [with open(path, "w", encoding="utf-8") as f: f.write(...)]. *)
Definition write_text (path : str) (content : str) : M unit :=
  if utf8_encodable content then emit (EWriteText path content)
  else emit (EWritePartial path) ;;; raise UnicodeEncodeError.

(** A [csv.writer] writes a [str] cell as it is, [None] as the empty
    string and any other cell through [str()], which escapes what a nested
    string holds. *)
Definition csv_cell_encodable (v : json) : bool :=
  match v with
  | JStr s => utf8_encodable s
  | _ => true
  end.

Definition csv_encodable (rows : list (list json)) : bool :=
  List.forallb (List.forallb csv_cell_encodable) rows.

(** [with open(path, "w", encoding="utf-8", newline="") as f]: the header
    row, then [writer.writerows(rows)]. *)
Definition write_csv (path : str) (header : list str) (rows : list (list json))
    : M unit :=
  if csv_encodable rows then emit (EWriteCsv path header rows)
  else emit (EWritePartial path) ;;; raise UnicodeEncodeError.

(** [os.path.join(a, b)]. *)
Definition path_join (a b : str) : str :=
  if startswith b (lit "/") then b
  else if match a with [] => true | _ => endswith a (lit "/") end then a ++ b
  else a ++ lit "/" ++ b.

(** ** Metadata: [fetch_video_metadata] *)

Definition fetch_video_metadata (w : World) (video_id : str) : M dict :=
  try
    (emit (EVideosList video_id) ;;;
     response <- lift (videos_list w video_id) ;;
     if dict_has (lit "items") response
        && truthy (dict_get response (lit "items") JNull)
     then
       item_ <- lift (item0 (dict_get response (lit "items") JNull)) ;;
       snippet <- lift (item item_ (lit "snippet")) ;;
       content_details <- lift (item item_ (lit "contentDetails")) ;;
       title <- lift (item snippet (lit "title")) ;;
       channel_title <- lift (item snippet (lit "channelTitle")) ;;
       published_at <- lift (item snippet (lit "publishedAt")) ;;
       publish_date <- lift (slice_prefix 10 published_at) ;;
       duration <- lift (item content_details (lit "duration")) ;;
       tags <- lift (get snippet (lit "tags") (JList [])) ;;
       ret [(lit "title", title);
            (lit "channel_title", channel_title);
            (lit "publish_date", publish_date);
            (lit "duration", duration);
            (lit "tags", tags)]
     else
       emit (ELogWarning [T (lit "No metadata found for video ID: ");
                          T video_id]) ;;;
       ret [])
    (fun e =>
       emit (ELogError [T (lit "Error fetching metadata for video ID ");
                        T video_id; T (lit ": "); E e]) ;;;
       ret []).

(** ** Persistence: [save_transcript] *)

Definition json_of_number (x : number) : json :=
  match x with NInt z => JInt z | NFloat q => JFloat q end.

(** [sanitize_filename] on an argument that need not be a [str]: [re.sub]
    raises [TypeError] on anything else. *)
Definition sanitize_filename_arg (w : World) (name : json) : result str :=
  match name with
  | JStr s => inr (sanitize_filename (unicode_alnum w) s TRANSCRIPT_FILENAME_LENGTH)
  | _ => inl TypeError
  end.

Definition transcript_item (entry : transcript_entry) : M json :=
  at_ <- lift (parse_time_format (json_of_number (start entry))) ;;
  ret (JDict [(lit "text", JStr (sanitize_text (text entry)));
              (lit "at", JStr at_)]).

Fixpoint map_M {A B} (f : A -> M B) (xs : list A) : M (list B) :=
  match xs with
  | [] => ret []
  | x :: xs' => y <- f x ;; ys <- map_M f xs' ;; ret (y :: ys)
  end.

Definition save_transcript (w : World) (video_url : str)
    (transcript : list transcript_entry)
    (channel_name video_title publish_date : json) : M unit :=
  sanitized_title <- lift (sanitize_filename_arg w video_title) ;;
  sanitized_channel <- lift (sanitize_filename_arg w channel_name) ;;
  let channel_dir := path_join (lit "transcripts") sanitized_channel in
  emit (EMakedirs channel_dir) ;;;
  metadata <- fetch_video_metadata w
                (split_first (lit "&") (split_last (lit "v=") video_url)) ;;
  items <- map_M transcript_item transcript ;;
  let transcript_data :=
    JDict [(lit "metadata",
            JDict [(lit "video_url", JStr video_url);
                   (lit "channel_name", channel_name);
                   (lit "video_title", video_title);
                   (lit "publish_date", publish_date);
                   (lit "duration",
                    dict_get metadata (lit "duration") (JStr (lit "Unknown")));
                   (lit "tags", dict_get metadata (lit "tags") (JList []))]);
           (lit "transcript", JList items)] in
  let filename := path_join channel_dir (sanitized_title ++ lit ".json") in
  write_json filename transcript_data.

(** ** Single video: [fetch_single_video] *)

(** The class [[0-9A-Za-z_-]] of [REGEX_PATTERNS["youtube_video_id"]]. *)
Definition is_id_char (c : char) : bool :=
  is_ascii_alnum c || (c =? 95) || (c =? 45).

(** The pattern of [REGEX_PATTERNS["youtube_video_id"]] matched at the
    front of [s]: either "v=" or a slash, then group 1, eleven characters
    of the class, then an optional tail that starts with an ampersand or a
    question mark and never makes the match fail.  Gives group 1. *)
Definition match_video_id (s : str) : option str :=
  let after :=
    if startswith s (lit "v=") then Some (List.skipn 2 s)
    else if startswith s (lit "/") then Some (List.skipn 1 s)
    else None in
  match after with
  | Some r =>
      let id := List.firstn 11 r in
      if (List.length id =? 11)%nat && List.forallb is_id_char id
      then Some id else None
  | None => None
  end.

(** [re.search(pattern, s)]: the leftmost position where the pattern
    matches; [match.group(1)]. *)
Fixpoint search_video_id (s : str) : option str :=
  match match_video_id s with
  | Some id => Some id
  | None =>
      match s with
      | [] => None
      | _ :: s' => search_video_id s'
      end
  end.

Definition required_keys : list str :=
  [lit "title"; lit "channel_title"; lit "publish_date"; lit "duration";
   lit "tags"].

(** [v in [None, "", []]]. *)
Definition is_empty_value (v : json) : bool :=
  match v with
  | JNull => true
  | JStr [] => true
  | JList [] => true
  | _ => false
  end.

Definition is_metadata_valid (metadata : dict) : bool :=
  List.forallb
    (fun key =>
       dict_has key metadata
       && negb (is_empty_value (dict_get metadata key JNull)))
    required_keys.

Definition msg_transcripts_disabled : message :=
  [T (lit "Transcripts are disabled for this video.")].
Definition msg_no_transcript_found : message :=
  [T (lit "No transcript found for this video.")].

(** The second half of [fetch_single_video], from the check that metadata
    was obtained to the end: fetch the transcript and save it. *)
Definition fetch_and_save (w : World) (video_url video_id : str)
    (metadata : dict) : M unit :=
  if negb (truthy (JDict metadata)) then
    emit (EPrint [T (lit "Failed to fetch metadata for video ID ");
                  T video_id; T (lit ". Skipping.")])
  else
    try
      (emit (EGetTranscript video_id) ;;;
       transcript <- lift (get_transcript w video_id) ;;
       save_transcript w video_url transcript
         (dict_get metadata (lit "channel_title") (JStr (lit "Unknown")))
         (dict_get metadata (lit "title") (JStr (lit "Unknown")))
         (dict_get metadata (lit "publish_date") (JStr (lit "Unknown"))) ;;;
       emit (EPrint [T (lit "Transcript for ");
                     V (dict_get metadata (lit "title") (JStr (lit "Unknown")));
                     T (lit " saved successfully.")]))
      (fun e =>
         match e with
         | TranscriptsDisabled => emit (EPrint msg_transcripts_disabled)
         | NoTranscriptFound => emit (EPrint msg_no_transcript_found)
         | _ => emit (EPrint [T (lit "An error occurred: "); E e])
         end).

(** [video_url] and [metadata] are [None] when the caller leaves them out. *)
Definition fetch_single_video (w : World) (video_url : option str)
    (metadata : option dict) : M unit :=
  video_url <- match video_url with
               | Some u => ret u
               | None =>
                   emit (EInput (lit "Enter the video URL: ")) ;;;
                   ret (input w (lit "Enter the video URL: "))
               end ;;
  match search_video_id video_url with
  | None =>
      emit (EPrint [T (lit "Invalid URL. Must contain a valid YouTube video ID.")])
  | Some video_id =>
      metadata <-
        (if match metadata with Some d => truthy (JDict d) | None => false end
         then
           let metadata := match metadata with Some d => d | None => [] end in
           if is_metadata_valid metadata then
             emit (EPrint [T (lit "Using provided metadata for video ID ");
                           T video_id]) ;;;
             ret metadata
           else
             emit (EPrint [T (lit "Incomplete or invalid metadata for video ID ");
                           T video_id; T (lit ". Fetching from API.")]) ;;;
             fetch_video_metadata w video_id
         else fetch_video_metadata w video_id) ;;
      fetch_and_save w video_url video_id metadata
  end.

(** ** Channel enumeration: [fetch_channel_videos] *)

Definition get_channel_id_from_url (w : World) (url : str) : M json :=
  try
    (response <-
       (if contains url (lit "/@") then
          let handle := split_last (lit "/@") url in
          emit (ESearchList handle) ;;;
          r <- lift (search_list w handle) ;;
          ret (inr r)
        else if contains url (lit "channel/") then
          ret (inl (JStr (split_last (lit "channel/") url)))
        else
          raise (ValueError (lit "Invalid YouTube channel URL or handle.") [])) ;;
     match response with
     | inl channel_id => ret channel_id
     | inr response =>
         if dict_has (lit "items") response
            && truthy (dict_get response (lit "items") JNull)
         then
           first <- lift (item0 (dict_get response (lit "items") JNull)) ;;
           snippet <- lift (item first (lit "snippet")) ;;
           lift (item snippet (lit "channelId"))
         else raise (ValueError (lit "Channel not found.") [])
     end)
    (fun e =>
       emit (ELogError [T (lit "Error fetching channel ID for URL ");
                        T url; T (lit ": "); E e]) ;;;
       emit (EPrint [T (lit "An error occurred: "); E e]) ;;;
       ret JNull).

Definition parse_iso8601_duration (w : World) (iso_duration : json) : M Z :=
  try
    (duration <- lift (isodate_parse_duration w iso_duration) ;;
     ret (py_int (NFloat duration)))
    (fun e =>
       emit (ELogError [T (lit "Error parsing duration '"); V iso_duration;
                        T (lit "': "); E e]) ;;;
       ret 0%Z).

(** [",".join(video_ids)]: every element has to be a [str]. *)
Fixpoint join_ids (video_ids : list json) : result str :=
  match video_ids with
  | [] => inr []
  | JStr s :: rest =>
      match join_ids rest with
      | inr t => inr (match rest with [] => s | _ => s ++ lit "," ++ t end)
      | inl e => inl e
      end
  | _ :: _ => inl TypeError
  end.

(** The first inner loop of a page: the identifiers its entries carry. *)
Definition collect_video_id (video_ids : list json) (item_ : json)
    : M (list json) :=
  snippet <- lift (get item_ (lit "snippet") (JDict [])) ;;
  resource_id <- lift (get snippet (lit "resourceId") (JDict [])) ;;
  video_id <- lift (get resource_id (lit "videoId") JNull) ;;
  if truthy video_id then ret (video_ids ++ [video_id])
  else
    emit (EPrint [T (lit "Skipping invalid item: "); V item_]) ;;;
    ret video_ids.

(** The second inner loop of a page: one row per item of the metadata
    response. *)
Definition append_video_row (w : World) (videos : list (list json))
    (video : json) : M (list (list json)) :=
  snippet <- lift (get video (lit "snippet") (JDict [])) ;;
  content_details <- lift (get video (lit "contentDetails") (JDict [])) ;;
  raw_duration <- lift (get content_details (lit "duration")
                          (JStr (lit "Unknown"))) ;;
  duration_seconds <- parse_iso8601_duration w raw_duration ;;
  formatted_duration <- lift (parse_time_format (JInt duration_seconds)) ;;
  id <- lift (item video (lit "id")) ;;
  title <- lift (get snippet (lit "title") (JStr (lit "Unknown"))) ;;
  tags <- lift (get snippet (lit "tags") (JList [])) ;;
  channel_title <- lift (get snippet (lit "channelTitle") (JStr (lit "Unknown"))) ;;
  published_at <- lift (get snippet (lit "publishedAt") (JStr (lit "Unknown"))) ;;
  ret (videos ++ [[id; title; tags; channel_title; published_at;
                   JStr formatted_duration]]).

(** One turn of the [while True] loop: a page and its rows. *)
Definition fetch_page (w : World) (uploads_playlist_id next_page_token : json)
    (videos : list (list json)) : M (list (list json) * json) :=
  emit (EPlaylistItemsList uploads_playlist_id next_page_token) ;;;
  playlist_response <-
    lift (playlist_items_list w uploads_playlist_id next_page_token) ;;
  items <- lift (iterate (dict_get playlist_response (lit "items") (JList []))) ;;
  video_ids <- for_each items collect_video_id [] ;;
  videos <-
    (if truthy (JList video_ids) then
       ids <- lift (join_ids video_ids) ;;
       emit (EVideosList ids) ;;;
       videos_response <- lift (videos_list w ids) ;;
       video_items <-
         lift (iterate (dict_get videos_response (lit "items") (JList []))) ;;
       for_each video_items (append_video_row w) videos
     else ret videos) ;;
  ret (videos, dict_get playlist_response (lit "nextPageToken") JNull).

(** The [while True] loop, at most [fuel] turns of it. *)
Fixpoint fetch_pages (w : World) (fuel : nat)
    (uploads_playlist_id next_page_token : json) (videos : list (list json))
    : M (list (list json)) :=
  match fuel with
  | O => ([], Diverged)
  | S fuel' =>
      page <- fetch_page w uploads_playlist_id next_page_token videos ;;
      let (videos, next_page_token) := page in
      if negb (truthy next_page_token) then ret videos
      else fetch_pages w fuel' uploads_playlist_id next_page_token videos
  end.

Definition csv_header : list str :=
  [lit "Video ID"; lit "Title"; lit "Tags"; lit "Channel Title";
   lit "Publish Date"; lit "Duration"].

Definition fetch_channel_videos (w : World) (fuel : nat) (channel_url : str)
    : M unit :=
  channel_id <- get_channel_id_from_url w channel_url ;;
  if negb (truthy channel_id) then
    emit (EPrint [T (lit "Failed to retrieve channel ID.")])
  else
    try
      (emit (EChannelsList channel_id) ;;;
       channel_response <- lift (channels_list w channel_id) ;;
       items <- lift (dict_item channel_response (lit "items")) ;;
       first <- lift (item0 items) ;;
       content_details <- lift (item first (lit "contentDetails")) ;;
       related <- lift (item content_details (lit "relatedPlaylists")) ;;
       uploads_playlist_id <- lift (item related (lit "uploads")) ;;
       snippet <- lift (item first (lit "snippet")) ;;
       title <- lift (item snippet (lit "title")) ;;
       channel_name <- lift (sanitize_filename_arg w title) ;;
       videos <- fetch_pages w fuel uploads_playlist_id JNull [] ;;
       let channel_dir := path_join (lit "transcripts") channel_name in
       emit (EMakedirs channel_dir) ;;;
       let output_file := path_join channel_dir (channel_name ++ lit ".csv") in
       write_csv output_file csv_header videos ;;;
       emit (EPrint [T (lit "Fetched ");
                     V (JInt (Z.of_nat (List.length videos)));
                     T (lit " videos. Saved to "); T output_file; T (lit ".")]))
      (fun e =>
         emit (ELogError [T (lit "Error fetching channel videos: "); E e]) ;;;
         emit (EPrint [T (lit "An error occurred: "); E e])).

(** ** File-driven batch: [process_file_with_video_urls] *)

Definition watch_url_prefix : str := lit "https://www.youtube.com/watch?v=".

(** A row of the CSV reader: [row[0]] raises [IndexError] on an empty row. *)
Definition url_of_row (row : list str) : result str :=
  match row with
  | [] => inl IndexError
  | cell :: _ => inr (watch_url_prefix ++ strip cell)
  end.

Definition url_of_line (line : str) : str :=
  let video_id := strip line in
  if negb (startswith video_id (lit "https://"))
  then watch_url_prefix ++ video_id
  else video_id.

Fixpoint urls_of_rows (rows : list (list str)) : result (list str) :=
  match rows with
  | [] => inr []
  | row :: rows' =>
      match url_of_row row with
      | inl e => inl e
      | inr u =>
          match urls_of_rows rows' with
          | inl e => inl e
          | inr us => inr (u :: us)
          end
      end
  end.

(** The CSV branch: [next(reader)] drops the first row and raises
    [StopIteration] when there is none. *)
Definition urls_of_csv (rows : list (list str)) : result (list str) :=
  match rows with
  | [] => inl StopIteration
  | _ :: rows' => urls_of_rows rows'
  end.

Definition urls_of_text (lines : list str) : list str :=
  List.map url_of_line lines.

Definition process_file_with_video_urls (w : World) : M unit :=
  emit (EInput (lit "Enter the path to the file (Text/CSV): ")) ;;;
  let file_path := strip (input w (lit "Enter the path to the file (Text/CSV): ")) in
  if negb (path_exists w file_path) then
    emit (EPrint [T (lit "File not found. Please try again.")])
  else
    let is_csv := endswith file_path (lit ".csv") in
    try
      (emit (EOpenRead file_path) ;;;
       urls <-
         (if is_csv then
            rows <- lift (csv_reader w file_path) ;;
            lift (urls_of_csv rows)
          else
            lines <- lift (readlines w file_path) ;;
            ret (urls_of_text lines)) ;;
       for_each urls (fun _ url => fetch_single_video w (Some url) None) tt)
      (fun e =>
         emit (EPrint [T (lit "An error occurred while processing the file: ");
                       E e])).

(** ** SHA-1, as [hashlib.sha1] computes it (FIPS 180-4) *)

Module SHA1.

Definition w32 (x : N) : N := x mod 4294967296.

Definition rotl (n x : N) : N :=
  w32 (N.lor (N.shiftl x n) (N.shiftr x (32 - n))).

Definition add32 (x y : N) : N := w32 (x + y).

Definition not32 (x : N) : N := N.lxor x 4294967295.

(** The message followed by the bit 1, zeros up to 56 modulo 64 bytes,
    and the bit length on eight bytes. *)
Definition big_endian (width : nat) (x : N) : list N :=
  List.map (fun i => (N.shiftr x (8 * N.of_nat i)) mod 256)
           (List.rev (List.seq 0 width)).

Definition pad (msg : list N) : list N :=
  let len := List.length msg in
  msg ++ [128] ++ List.repeat 0 ((119 - len mod 64) mod 64)%nat
      ++ big_endian 8 (8 * N.of_nat len).

Fixpoint words (bytes : list N) : list N :=
  match bytes with
  | a :: b :: c :: d :: rest =>
      (a * 16777216 + b * 65536 + c * 256 + d) :: words rest
  | _ => []
  end.

(** The message schedule: sixteen words of the block, extended to eighty. *)
Fixpoint extend (steps : nat) (ws : list N) : list N :=
  match steps with
  | O => ws
  | S k =>
      let t := List.length ws in
      let at_ i := List.nth (t - i) ws 0 in
      extend k (ws ++ [rotl 1 (N.lxor (N.lxor (at_ 3%nat) (at_ 8%nat))
                                      (N.lxor (at_ 14%nat) (at_ 16%nat)))])
  end.

Definition f_k (t : nat) (b c d : N) : N * N :=
  if (t <? 20)%nat then
    (N.lor (N.land b c) (N.land (not32 b) d), 1518500249)
  else if (t <? 40)%nat then
    (N.lxor (N.lxor b c) d, 1859775393)
  else if (t <? 60)%nat then
    (N.lor (N.lor (N.land b c) (N.land b d)) (N.land c d), 2400959708)
  else (N.lxor (N.lxor b c) d, 3395469782).

Definition state : Type := N * N * N * N * N.

Definition round (st : state) (tw : nat * N) : state :=
  let '(a, b, c, d, e) := st in
  let (f, k) := f_k (fst tw) b c d in
  let temp := add32 (add32 (add32 (add32 (rotl 5 a) f) e) k) (snd tw) in
  (temp, a, rotl 30 b, c, d).

Definition compress (h : state) (block : list N) : state :=
  let ws := extend 64 block in
  let '(a, b, c, d, e) :=
    List.fold_left round (List.combine (List.seq 0 80) ws) h in
  let '(h0, h1, h2, h3, h4) := h in
  (add32 h0 a, add32 h1 b, add32 h2 c, add32 h3 d, add32 h4 e).

Fixpoint blocks (fuel : nat) (ws : list N) : list (list N) :=
  match fuel, ws with
  | S k, _ :: _ => List.firstn 16 ws :: blocks k (List.skipn 16 ws)
  | _, _ => []
  end.

Definition initial : state :=
  (1732584193, 4023233417, 2562383102, 271733878, 3285377520).

Definition digest (msg : list N) : state :=
  let ws := words (pad msg) in
  List.fold_left compress (blocks (List.length ws) ws) initial.

Definition hex_digit (x : N) : N := if x <? 10 then 48 + x else 87 + x.

Definition hex32 (x : N) : str :=
  List.map (fun i => hex_digit ((N.shiftr x (4 * N.of_nat i)) mod 16))
           (List.rev (List.seq 0 8)).

Definition hex (st : state) : str :=
  let '(a, b, c, d, e) := st in
  hex32 a ++ hex32 b ++ hex32 c ++ hex32 d ++ hex32 e.

End SHA1.

(** ** Duplicate detection: [compute_sha1], [find_duplicate_transcripts] *)

(** What the successive [f.read(size)] return before the empty read. *)
Fixpoint read_chunks (fuel size : nat) (data : list Byte.byte)
    : list (list Byte.byte) :=
  match fuel, data with
  | S k, _ :: _ =>
      List.firstn size data :: read_chunks k size (List.skipn size data)
  | _, _ => []
  end.

Definition chunk_size : nat := N.to_nat 8192.

(** A [hashlib.sha1()] object is the bytes it was fed so far. *)
Definition sha1_update (fed chunk : list Byte.byte) : list Byte.byte :=
  fed ++ chunk.

Definition sha1_hexdigest (fed : list Byte.byte) : str :=
  SHA1.hex (SHA1.digest (List.map Byte.to_N fed)).

(** The digest of a file, [None] when reading it fails. *)
Definition compute_sha1 (w : World) (file_path : str) : M (option str) :=
  try
    (emit (EOpenRead file_path) ;;;
     data <- lift (read_bytes w file_path) ;;
     let sha1 :=
       List.fold_left sha1_update
         (read_chunks (List.length data) chunk_size data) [] in
     ret (Some (sha1_hexdigest sha1)))
    (fun e =>
       emit (ELogError [T (lit "Error computing SHA1 for "); T file_path;
                        T (lit ": "); E e]) ;;;
       ret None).

(** The two variables of the scan: [hashes], a dict from digest (or [None])
    to the first path seen with it, and [duplicates], the pairs found. *)
Definition scan_state : Type :=
  gmap (option str) str * list (str * str).

(** The body of the inner loop, for one file name of a directory. *)
Definition scan_file (w : World) (root : str) (st : scan_state) (file : str)
    : M scan_state :=
  let (hashes, duplicates) := st in
  if endswith file (lit ".json") then
    let file_path := path_join root file in
    file_hash <- compute_sha1 w file_path ;;
    match hashes !! file_hash with
    | Some original => ret (hashes, duplicates ++ [(file_path, original)])
    | None => ret (<[file_hash := file_path]> hashes, duplicates)
    end
  else ret st.

Definition scan_directory (w : World) (st : scan_state)
    (entry : str * list str) : M scan_state :=
  for_each (snd entry) (scan_file w (fst entry)) st.

(** The walk over the directory tree. *)
Definition scan (w : World) (transcripts_dir : str) : M scan_state :=
  for_each (walk w transcripts_dir) (scan_directory w) (∅, []).

Definition report_lines (duplicates : list (str * str)) : str :=
  List.concat
    (List.map
       (fun p => lit "Duplicate: " ++ fst p ++ [10] ++ lit "Original: "
                 ++ snd p ++ [10; 10])
       duplicates).

Definition find_duplicate_transcripts (w : World) : M unit :=
  emit (EInput (lit "Enter the path to search for duplicates: ")) ;;;
  let transcripts_dir := input w (lit "Enter the path to search for duplicates: ") in
  if negb (path_exists w transcripts_dir) then
    emit (EPrint [T (lit "Directory does not exist.")])
  else
    st <- scan w transcripts_dir ;;
    let duplicates := snd st in
    match duplicates with
    | _ :: _ =>
        write_text (lit "duplicates.txt") (report_lines duplicates) ;;;
        emit (EPrint [T (lit "Saved duplicate transcripts to duplicates.txt.")])
    | [] => emit (EPrint [T (lit "No duplicate transcripts found.")])
    end.

(** * Notions the properties are stated with *)

(** ** Computations *)

(** A computation that ends, normally or with an exception. *)
Definition halts {A} (m : M A) : Prop := snd m <> Diverged.

(** A computation that ends normally. *)
Definition total {A} (m : M A) : Prop := exists a, snd m = Done a.

(** Every event of a computation satisfies [P]. *)
Definition emits {A} (P : event -> Prop) (m : M A) : Prop :=
  List.Forall P (fst m).

(** The events [save_transcript] alone produces: creating the channel
    directory and writing the record, whole or in part. *)
Definition is_save_event (ev : event) : bool :=
  match ev with
  | EMakedirs _ => true
  | EWriteJson _ _ => true
  | EWritePartial _ => true
  | _ => false
  end.

(** ** Timestamps *)

(** The shapes [MM:SS] and [HH:MM:SS]: two-digit minute and second fields,
    an hour field of at least two digits. *)
Definition is_MM_SS (s : str) : bool :=
  match s with
  | [m1; m2; c; s1; s2] =>
      is_digit m1 && is_digit m2 && (c =? 58) && is_digit s1 && is_digit s2
  | _ => false
  end.

Definition is_HH_MM_SS (s : str) : bool :=
  (2 <=? List.length (take_while is_digit s))%nat
  && match drop_while is_digit s with
     | c :: r => (c =? 58) && is_MM_SS r
     | [] => false
     end.

(** The number a run of decimal digits denotes, and the numbers of the
    colon-separated fields of a timestamp. *)
Definition dec_value (s : str) : Z :=
  Z.of_N (List.fold_left (fun a c => 10 * a + (c - 48)) s 0).

Definition clock_fields (s : str) : list Z :=
  List.map dec_value (split (lit ":") s).

(** The value of a number as a rational. *)
Definition num_Q (x : number) : Q :=
  match x with
  | NInt z => inject_Z z
  | NFloat q => q
  end.


(** ** Sanitized text *)

Definition is_printable_ascii (c : char) : bool := in_range 32 126 c.

(** White space in [s] is tight: every white-space character is one U+0020
    that follows a character that is not white space, and the end does not
    follow white space.  [prev_space] tells whether the character before
    [s] was white space. *)
Fixpoint tight (prev_space : bool) (s : str) : bool :=
  match s with
  | [] => negb prev_space
  | c :: s' =>
      if is_space c then (c =? 32) && negb prev_space && tight true s'
      else tight false s'
  end.

(** Tokens separated by single spaces, with no space before the first or
    after the last; the empty string counts. *)
Definition single_spaced (s : str) : bool :=
  match s with
  | [] => true
  | _ => tight true s
  end.

(** The same without the condition on the end. *)
Fixpoint spaced (prev_space : bool) (s : str) : bool :=
  match s with
  | [] => true
  | c :: s' =>
      if is_space c then (c =? 32) && negb prev_space && spaced true s'
      else spaced false s'
  end.

(** What [sanitize_text] keeps of the characters that are not white space. *)
Definition kept_in_text (c : char) : bool :=
  negb (regex_special_chars c) && (c <=? 65535).

(** The tokens of a string: its maximal runs of characters that are not
    white space, in order.  [split_words s] gives the token that starts at
    the front of [s] (empty when [s] is empty or starts with white space)
    and the tokens after it. *)
Definition push_word (w : str) (ws : list str) : list str :=
  match w with
  | [] => ws
  | _ => w :: ws
  end.

Fixpoint split_words (s : str) : str * list str :=
  match s with
  | [] => ([], [])
  | c :: s' =>
      let (w, ws) := split_words s' in
      if is_space c then ([], push_word w ws) else (c :: w, ws)
  end.

Definition tokens (s : str) : list str :=
  push_word (fst (split_words s)) (snd (split_words s)).

(** Tokens put together again with one U+0020 between neighbours. *)
Fixpoint join_blank (ws : list str) : str :=
  match ws with
  | [] => []
  | w :: ws' =>
      match ws' with
      | [] => w
      | _ => w ++ [32] ++ join_blank ws'
      end
  end.

(** ** Duplicate detection *)

(** The record files under a directory, in the order the walk visits them. *)
Definition json_paths (w : World) (transcripts_dir : str) : list str :=
  List.flat_map
    (fun entry =>
       List.map (path_join (fst entry))
         (List.filter (fun file => endswith file (lit ".json")) (snd entry)))
    (walk w transcripts_dir).

(** The digest of a file's content, [None] when the file cannot be read. *)
Definition file_digest (w : World) (p : str) : option str :=
  match read_bytes w p with
  | inr data => Some (sha1_hexdigest data)
  | inl _ => None
  end.

Definition digest_eqb (a b : option str) : bool :=
  match a, b with
  | Some x, Some y => str_eqb x y
  | None, None => true
  | _, _ => false
  end.

Fixpoint bytes_eqb (a b : list Byte.byte) : bool :=
  match a, b with
  | [], [] => true
  | x :: a', y :: b' => Byte.eqb x y && bytes_eqb a' b'
  | _, _ => false
  end.

(** The file at [p] can be read and holds exactly the bytes [content]. *)
Definition reads_as (w : World) (content : list Byte.byte) (p : str) : bool :=
  match read_bytes w p with
  | inr data => bytes_eqb data content
  | inl _ => false
  end.

Definition mem (p : str) (ps : list str) : bool := List.existsb (str_eqb p) ps.

(** The file at [p] has digest [k]. *)
Definition has_digest (w : World) (k : option str) (p : str) : bool :=
  digest_eqb (file_digest w p) k.

(** The first of [ps] whose digest is [k]. *)
Definition first_with (w : World) (k : option str) (ps : list str) : option str :=
  List.find (has_digest w k) ps.

(** The pairs a scan is to report for the files [ps], met after the files
    [seen]: each file whose digest was met before, with the first file of
    that digest. *)
Fixpoint expected_pairs (w : World) (seen ps : list str) : list (str * str) :=
  match ps with
  | [] => []
  | p :: ps' =>
      match first_with w (file_digest w p) seen with
      | Some original => [(p, original)]
      | None => []
      end ++ expected_pairs w (seen ++ [p]) ps'
  end.

(** One file of the scan, without the effects. *)
Definition step_file (w : World) (st : scan_state) (p : str) : scan_state :=
  match fst st !! file_digest w p with
  | Some original => (fst st, snd st ++ [(p, original)])
  | None => (<[file_digest w p := p]> (fst st), snd st)
  end.

(** The pairs of a report that mention one of the files [ps]. *)
Definition pairs_about (ps : list str) (pairs : list (str * str))
    : list (str * str) :=
  List.filter (fun pr => mem (fst pr) ps || mem (snd pr) ps) pairs.

Definition dup_prompt : str := lit "Enter the path to search for duplicates: ".

(** A write to the file system. *)
Definition is_write (ev : event) : bool :=
  match ev with
  | EMakedirs _ => true
  | EWriteJson _ _ => true
  | EWriteCsv _ _ _ => true
  | EWriteText _ _ => true
  | EWritePartial _ => true
  | _ => false
  end.

(** A world in which nothing exists and every provider fails. *)
Definition offline : exn := ProviderError (lit "offline").

Definition empty_world : World :=
  {| unicode_alnum := fun _ => false;
     input := fun _ => [];
     videos_list := fun _ => inl offline;
     search_list := fun _ => inl offline;
     channels_list := fun _ => inl offline;
     playlist_items_list := fun _ _ => inl offline;
     get_transcript := fun _ => inl offline;
     isodate_parse_duration := fun _ => inl offline;
     path_exists := fun _ => false;
     walk := fun _ => [];
     read_bytes := fun _ => inl offline;
     readlines := fun _ => inl offline;
     csv_reader := fun _ => inl offline |}.

(** A directory "transcripts/ch" with the four record files a, b, c and d:
    a, b and d hold the same bytes, c holds others. *)
Definition world_three_and_one : World :=
  {| unicode_alnum := fun _ => false;
     input := fun _ => lit "transcripts";
     videos_list := fun _ => inl offline;
     search_list := fun _ => inl offline;
     channels_list := fun _ => inl offline;
     playlist_items_list := fun _ _ => inl offline;
     get_transcript := fun _ => inl offline;
     isodate_parse_duration := fun _ => inl offline;
     path_exists := fun p => str_eqb p (lit "transcripts");
     walk := fun _ =>
       [(lit "transcripts", [lit "notes.txt"]);
        (lit "transcripts/ch",
         [lit "a.json"; lit "b.json"; lit "c.json"; lit "d.json"])];
     read_bytes := fun p =>
       if str_eqb p (lit "transcripts/ch/c.json")
       then inr [Byte.x7b; Byte.x7d; Byte.x0a]
       else inr [Byte.x7b; Byte.x7d];
     readlines := fun _ => inl offline;
     csv_reader := fun _ => inl offline |}.

(** The same four files, where the name of b holds a byte that is not
    UTF-8: the file system's decoding gives it as the surrogate U+DCFF
    (56575). *)
Definition world_undecodable_name : World :=
  {| unicode_alnum := fun _ => false;
     input := fun _ => lit "transcripts";
     videos_list := fun _ => inl offline;
     search_list := fun _ => inl offline;
     channels_list := fun _ => inl offline;
     playlist_items_list := fun _ _ => inl offline;
     get_transcript := fun _ => inl offline;
     isodate_parse_duration := fun _ => inl offline;
     path_exists := fun p => str_eqb p (lit "transcripts");
     walk := fun _ =>
       [(lit "transcripts/ch",
         [lit "a.json"; lit "b" ++ [56575] ++ lit ".json"; lit "c.json";
          lit "d.json"])];
     read_bytes := fun p =>
       if str_eqb p (lit "transcripts/ch/c.json")
       then inr [Byte.x7b; Byte.x7d; Byte.x0a]
       else inr [Byte.x7b; Byte.x7d];
     readlines := fun _ => inl offline;
     csv_reader := fun _ => inl offline |}.

(** The same directory with two record files, x and y, neither of which can
    be read. *)
Definition world_unreadable : World :=
  {| unicode_alnum := fun _ => false;
     input := fun _ => lit "transcripts";
     videos_list := fun _ => inl offline;
     search_list := fun _ => inl offline;
     channels_list := fun _ => inl offline;
     playlist_items_list := fun _ _ => inl offline;
     get_transcript := fun _ => inl offline;
     isodate_parse_duration := fun _ => inl offline;
     path_exists := fun p => str_eqb p (lit "transcripts");
     walk := fun _ => [(lit "transcripts/ch", [lit "x.json"; lit "y.json"])];
     read_bytes := fun _ => inl (ProviderError (lit "Permission denied"));
     readlines := fun _ => inl offline;
     csv_reader := fun _ => inl offline |}.

(** ** Persisted records *)

(** The timestamp of a start offset. *)
Definition timestamp (x : number) : str :=
  match parse_time_format (json_of_number x) with
  | inr s => s
  | inl _ => []
  end.

(** The persisted form of one transcript entry. *)
Definition record_item (entry : transcript_entry) : json :=
  JDict [(lit "text", JStr (sanitize_text (text entry)));
         (lit "at", JStr (timestamp (start entry)))].

(** The identifier [save_transcript] re-resolves the metadata of. *)
Definition url_video_id (video_url : str) : str :=
  split_first (lit "&") (split_last (lit "v=") video_url).

(** A world whose metadata provider knows one video, whose transcripts are
    disabled. *)
Definition sample_metadata : dict :=
  [(lit "title", JStr (lit "A tour"));
   (lit "channel_title", JStr (lit "Rocq"));
   (lit "publish_date", JStr (lit "2024-01-02"));
   (lit "duration", JStr (lit "PT1M1S"));
   (lit "tags", JList [JStr (lit "proofs")])].

Definition sample_url : str := lit "https://www.youtube.com/watch?v=dQw4w9WgXcQ".

Definition world_disabled : World :=
  {| unicode_alnum := fun _ => false;
     input := fun _ => [];
     videos_list := fun _ => inl offline;
     search_list := fun _ => inl offline;
     channels_list := fun _ => inl offline;
     playlist_items_list := fun _ _ => inl offline;
     get_transcript := fun _ => inl TranscriptsDisabled;
     isodate_parse_duration := fun _ => inl offline;
     path_exists := fun _ => false;
     walk := fun _ => [];
     read_bytes := fun _ => inl offline;
     readlines := fun _ => inl offline;
     csv_reader := fun _ => inl offline |}.

Definition world_no_transcript : World :=
  {| unicode_alnum := fun _ => false;
     input := fun _ => [];
     videos_list := fun _ => inl offline;
     search_list := fun _ => inl offline;
     channels_list := fun _ => inl offline;
     playlist_items_list := fun _ _ => inl offline;
     get_transcript := fun _ => inl NoTranscriptFound;
     isodate_parse_duration := fun _ => inl offline;
     path_exists := fun _ => false;
     walk := fun _ => [];
     read_bytes := fun _ => inl offline;
     readlines := fun _ => inl offline;
     csv_reader := fun _ => inl offline |}.

(** ** File-driven batch *)

Definition batch_prompt : str := lit "Enter the path to the file (Text/CSV): ".

(** The path the batch reads, as typed. *)
Definition batch_path (w : World) : str := strip (input w batch_prompt).

(** The events of the fetches of a sequence of URLs. *)
Definition fetches (w : World) (urls : list str) : list event :=
  List.flat_map (fun url => trace (fetch_single_video w (Some url) None)) urls.

(** A world with the CSV file "videos.csv": a header row, and a row whose
    first cell is a full URL. *)
Definition world_csv : World :=
  {| unicode_alnum := fun _ => false;
     input := fun _ => lit "videos.csv ";
     videos_list := fun _ => inl offline;
     search_list := fun _ => inl offline;
     channels_list := fun _ => inl offline;
     playlist_items_list := fun _ _ => inl offline;
     get_transcript := fun _ => inl offline;
     isodate_parse_duration := fun _ => inl offline;
     path_exists := fun p => str_eqb p (lit "videos.csv");
     walk := fun _ => [];
     read_bytes := fun _ => inl offline;
     readlines := fun _ => inl offline;
     csv_reader := fun _ =>
       inr [[lit "Video ID"; lit "Title"];
            [lit " dQw4w9WgXcQ"; lit "A tour"]] |}.

(** The same file, where the first cell of the row is the full URL of the
    video. *)
Definition world_csv_url : World :=
  {| unicode_alnum := fun _ => false;
     input := fun _ => lit "videos.csv ";
     videos_list := fun _ => inl offline;
     search_list := fun _ => inl offline;
     channels_list := fun _ => inl offline;
     playlist_items_list := fun _ _ => inl offline;
     get_transcript := fun _ => inl offline;
     isodate_parse_duration := fun _ => inl offline;
     path_exists := fun p => str_eqb p (lit "videos.csv");
     walk := fun _ => [];
     read_bytes := fun _ => inl offline;
     readlines := fun _ => inl offline;
     csv_reader := fun _ =>
       inr [[lit "Video ID"; lit "Title"]; [sample_url; lit "A tour"]] |}.

(** ** Channel enumeration *)

Definition is_page_request (ev : event) : bool :=
  match ev with
  | EPlaylistItemsList _ _ => true
  | _ => false
  end.

(** The number of playlist pages a run asked the provider for. *)
Definition pages_fetched (t : list event) : nat :=
  List.length (List.filter is_page_request t).

(** An entry of a playlist page that carries a video identifier:
    [item["snippet"]["resourceId"]["videoId"]] is there and is not empty. *)
Definition carries_video_id (item_ : json) : bool :=
  match item_ with
  | JDict d =>
      match dict_get d (lit "snippet") (JDict []) with
      | JDict snippet =>
          match dict_get snippet (lit "resourceId") (JDict []) with
          | JDict resource_id =>
              truthy (dict_get resource_id (lit "videoId") JNull)
          | _ => false
          end
      | _ => false
      end
  | _ => false
  end.

(** The identifier an entry of a playlist page carries,
    [item["snippet"]["resourceId"]["videoId"]]; [None] when a level is
    missing. *)
Definition entry_video_id (item_ : json) : json :=
  match item_ with
  | JDict d =>
      match dict_get d (lit "snippet") (JDict []) with
      | JDict snippet =>
          match dict_get snippet (lit "resourceId") (JDict []) with
          | JDict resource_id => dict_get resource_id (lit "videoId") JNull
          | _ => JNull
          end
      | _ => JNull
      end
  | _ => JNull
  end.

(** The identifiers of a page: those of its entries that carry one, in
    the order of the page. *)
Definition page_video_ids (items : list json) : list json :=
  List.map entry_video_id (List.filter carries_video_id items).

(** A request for the metadata of videos. *)
Definition is_videos_request (ev : event) : bool :=
  match ev with
  | EVideosList _ => true
  | _ => false
  end.

(** A channel listing that names [uploads] as the playlist of the channel's
    uploads and [title] as its title:
    [response["items"][0]["contentDetails"]["relatedPlaylists"]["uploads"]]
    and [response["items"][0]["snippet"]["title"]]. *)
Definition channel_listing (response : dict) (uploads : json) (title : str)
    : Prop :=
  exists first others content_details related snippet,
    dict_lookup (lit "items") response = Some (JList (JDict first :: others))
    /\ dict_lookup (lit "contentDetails") first = Some (JDict content_details)
    /\ dict_lookup (lit "relatedPlaylists") content_details
       = Some (JDict related)
    /\ dict_lookup (lit "uploads") related = Some uploads
    /\ dict_lookup (lit "snippet") first = Some (JDict snippet)
    /\ dict_lookup (lit "title") snippet = Some (JStr title).

Definition is_csv_write (ev : event) : bool :=
  match ev with
  | EWriteCsv _ _ _ => true
  | _ => false
  end.

(** What is printed for an entry that is passed over. *)
Definition skip_message (item_ : json) : event :=
  EPrint [T (lit "Skipping invalid item: "); V item_].

(** The duration a video of the metadata response comes with, "Unknown"
    when it has none. *)
Definition raw_duration (video : json) : json :=
  match video with
  | JDict d =>
      match dict_get d (lit "contentDetails") (JDict []) with
      | JDict content_details =>
          dict_get content_details (lit "duration") (JStr (lit "Unknown"))
      | _ => JNull
      end
  | _ => JNull
  end.

(** The last column of a row. *)
Definition duration_column (row : list json) : json := List.nth 5 row JNull.

(** A row of a video whose duration is missing or does not parse shows
    zero seconds. *)
Definition zero_when_unparsed (w : World) (video : json) (row : list json)
    : Prop :=
  forall e,
    isodate_parse_duration w (raw_duration video) = inl e ->
    duration_column row = JStr (lit "00:00").

Definition sample_playlist : json := JStr (lit "UUuploads").

Definition playlist_entry (video_id : json) : json :=
  JDict [(lit "snippet",
          JDict [(lit "resourceId", JDict [(lit "videoId", video_id)])])].

(** One page, without a continuation token: two entries with an identifier
    and one without. *)
Definition sample_page : dict :=
  [(lit "items",
    JList [playlist_entry (JStr (lit "dQw4w9WgXcQ"));
           JDict [(lit "snippet", JDict [])];
           playlist_entry (JStr (lit "aaaaaaaaaaa"))])].

(** A stand-in for [isodate.parse_duration] that knows one duration. *)
Definition toy_parse_duration (v : json) : result Q :=
  match v with
  | JStr s =>
      if str_eqb s (lit "PT1M1S") then inr (61 # 1)
      else inl (ValueError (lit "Unable to parse duration string") [v])
  | _ => inl TypeError
  end.

(** The provider answers with both videos, the second without a duration. *)
Definition world_channel : World :=
  {| unicode_alnum := fun _ => false;
     input := fun _ => [];
     videos_list := fun _ =>
       inr [(lit "items",
             JList [JDict [(lit "id", JStr (lit "dQw4w9WgXcQ"));
                           (lit "snippet", JDict [(lit "title", JStr (lit "A tour"))]);
                           (lit "contentDetails",
                            JDict [(lit "duration", JStr (lit "PT1M1S"))])];
                    JDict [(lit "id", JStr (lit "aaaaaaaaaaa"))]])];
     search_list := fun _ => inl offline;
     channels_list := fun _ => inl offline;
     playlist_items_list := fun _ _ => inr sample_page;
     get_transcript := fun _ => inl offline;
     isodate_parse_duration := toy_parse_duration;
     path_exists := fun _ => false;
     walk := fun _ => [];
     read_bytes := fun _ => inl offline;
     readlines := fun _ => inl offline;
     csv_reader := fun _ => inl offline |}.

(** The provider answers with no video at all: the listed ones are private
    or were deleted. *)
Definition world_private : World :=
  {| unicode_alnum := fun _ => false;
     input := fun _ => [];
     videos_list := fun _ => inr [(lit "items", JList [])];
     search_list := fun _ => inl offline;
     channels_list := fun _ => inl offline;
     playlist_items_list := fun _ _ => inr sample_page;
     get_transcript := fun _ => inl offline;
     isodate_parse_duration := toy_parse_duration;
     path_exists := fun _ => false;
     walk := fun _ => [];
     read_bytes := fun _ => inl offline;
     readlines := fun _ => inl offline;
     csv_reader := fun _ => inl offline |}.

(** A channel whose uploads are that one page. *)
Definition sample_channel_url : str :=
  lit "https://www.youtube.com/channel/UCrocq".

Definition sample_channel : dict :=
  [(lit "items",
    JList [JDict [(lit "contentDetails",
                   JDict [(lit "relatedPlaylists",
                           JDict [(lit "uploads", sample_playlist)])]);
                  (lit "snippet", JDict [(lit "title", JStr (lit "Rocq"))])]])].

Definition world_uploads : World :=
  {| unicode_alnum := fun _ => false;
     input := fun _ => [];
     videos_list := videos_list world_channel;
     search_list := fun _ => inl offline;
     channels_list := fun _ => inr sample_channel;
     playlist_items_list := fun _ _ => inr sample_page;
     get_transcript := fun _ => inl offline;
     isodate_parse_duration := toy_parse_duration;
     path_exists := fun _ => false;
     walk := fun _ => [];
     read_bytes := fun _ => inl offline;
     readlines := fun _ => inl offline;
     csv_reader := fun _ => inl offline |}.

(** * Properties *)

(** ** The monad *)

Lemma bind_done {A B} (m : M A) (k : A -> M B) a :
  snd m = Done a -> bind m k = (fst m ++ fst (k a), snd (k a)).
Proof. intros H. unfold bind. rewrite H. reflexivity. Qed.

Lemma snd_bind_done {A B} (m : M A) (k : A -> M B) a :
  snd m = Done a -> snd (bind m k) = snd (k a).
Proof. intros H. rewrite (bind_done m k a H). reflexivity. Qed.

(** A loop whose body always ends normally is a fold. *)
Lemma for_each_fold {A S} (body : S -> A -> M S) (f : S -> A -> S) xs :
  (forall s x, snd (body s x) = Done (f s x)) ->
  forall s, snd (for_each xs body s) = Done (List.fold_left f xs s).
Proof.
  intros Hbody. induction xs as [|x xs IH]; intros s; [reflexivity|].
  cbn [for_each List.fold_left].
  rewrite (snd_bind_done _ _ _ (Hbody s x)). apply IH.
Qed.


Lemma bind_ret {A B} (a : A) (k : A -> M B) : bind (ret a) k = k a.
Proof. unfold bind, ret. cbn. destruct (k a); reflexivity. Qed.

Lemma bind_lift_ok {A B} (a : A) (k : A -> M B) : bind (lift (inr a)) k = k a.
Proof. apply bind_ret. Qed.

Lemma bind_lift_err {A B} (e : exn) (k : A -> M B) :
  bind (lift (inl e)) k = raise e.
Proof. reflexivity. Qed.

Lemma bind_raise {A B} (e : exn) (k : A -> M B) : bind (raise e) k = raise e.
Proof. reflexivity. Qed.

Lemma bind_emit {B} (ev : event) (k : unit -> M B) :
  bind (emit ev) k = (ev :: fst (k tt), snd (k tt)).
Proof. reflexivity. Qed.

Lemma bind_assoc {A B C} (m : M A) (k : A -> M B) (h : B -> M C) :
  bind (bind m k) h = bind m (fun a => bind (k a) h).
Proof.
  unfold bind. destruct m as [t [a| |]]; cbn [fst snd]; try reflexivity.
  destruct (k a) as [t' [b| |]]; cbn [fst snd]; try reflexivity.
  rewrite List.app_assoc. reflexivity.
Qed.

Lemma trace_bind_done {A B} (m : M A) (k : A -> M B) a :
  snd m = Done a -> trace (bind m k) = trace m ++ trace (k a).
Proof. intros H. rewrite (bind_done m k a H). reflexivity. Qed.

Lemma try_done {A} (m : M A) h a : snd m = Done a -> try m h = m.
Proof. intros H. unfold try. rewrite H. reflexivity. Qed.

Lemma try_raised {A} (m : M A) h e :
  snd m = Raised e -> try m h = (fst m ++ fst (h e), snd (h e)).
Proof. intros H. unfold try. rewrite H. reflexivity. Qed.

Lemma halts_ret {A} (a : A) : halts (ret a).
Proof. discriminate. Qed.

Lemma halts_raise {A} e : halts (@raise A e).
Proof. discriminate. Qed.

Lemma halts_emit ev : halts (emit ev).
Proof. discriminate. Qed.

Lemma halts_lift {A} (r : result A) : halts (lift r).
Proof. destruct r; discriminate. Qed.

Lemma halts_bind {A B} (m : M A) (k : A -> M B) :
  halts m -> (forall a, halts (k a)) -> halts (bind m k).
Proof.
  unfold halts, bind. intros Hm Hk. revert Hm.
  destruct (snd m) as [a| |]; cbn [snd]; intros Hm;
    [apply Hk|discriminate|contradiction].
Qed.

Lemma halts_try {A} (m : M A) h :
  halts m -> (forall e, halts (h e)) -> halts (try m h).
Proof.
  unfold halts, try. intros Hm Hh.
  destruct (snd m) as [a| |] eqn:Hs; cbn [snd]; rewrite ?Hs;
    [discriminate|apply Hh|contradiction].
Qed.

Lemma total_halts {A} (m : M A) : total m -> halts m.
Proof. intros [a H]. unfold halts. rewrite H. discriminate. Qed.

Lemma total_ret {A} (a : A) : total (ret a).
Proof. exists a. reflexivity. Qed.

Lemma total_emit ev : total (emit ev).
Proof. exists tt. reflexivity. Qed.

Lemma total_bind {A B} (m : M A) (k : A -> M B) :
  total m -> (forall a, total (k a)) -> total (bind m k).
Proof.
  intros [a Ha] Hk. destruct (Hk a) as [b Hb]. exists b.
  rewrite (snd_bind_done m k a Ha). exact Hb.
Qed.

Lemma total_try {A} (m : M A) h :
  halts m -> (forall e, total (h e)) -> total (try m h).
Proof.
  unfold halts, total, try. intros Hm Hh.
  destruct (snd m) as [a| |] eqn:Hs; [|apply Hh|contradiction].
  exists a. exact Hs.
Qed.

Lemma halts_map_M {A B} (f : A -> M B) xs :
  (forall x, halts (f x)) -> halts (map_M f xs).
Proof.
  intros Hf. induction xs as [|x xs IH]; cbn [map_M]; [apply halts_ret|].
  apply halts_bind; [apply Hf|]. intros y.
  apply halts_bind; [apply IH|]. intros ys. apply halts_ret.
Qed.

Lemma halts_for_each {A S} (body : S -> A -> M S) xs :
  (forall s x, halts (body s x)) -> forall s, halts (for_each xs body s).
Proof.
  intros Hb. induction xs as [|x xs IH]; intros s; cbn [for_each];
    [apply halts_ret|].
  apply halts_bind; [apply Hb|]. intros s'. apply IH.
Qed.

Lemma total_for_each {A S} (body : S -> A -> M S) xs :
  (forall s x, total (body s x)) -> forall s, total (for_each xs body s).
Proof.
  intros Hb. induction xs as [|x xs IH]; intros s; cbn [for_each];
    [apply total_ret|].
  apply total_bind; [apply Hb|]. intros s'. apply IH.
Qed.

Lemma emits_ret {A} P (a : A) : emits P (ret a).
Proof. constructor. Qed.

Lemma emits_raise {A} P e : emits P (@raise A e).
Proof. constructor. Qed.

Lemma emits_lift {A} P (r : result A) : emits P (lift r).
Proof. constructor. Qed.

Lemma emits_emit (P : event -> Prop) ev : P ev -> emits P (emit ev).
Proof. intros H. repeat constructor. exact H. Qed.

Lemma emits_bind {A B} P (m : M A) (k : A -> M B) :
  emits P m -> (forall a, emits P (k a)) -> emits P (bind m k).
Proof.
  unfold emits, bind. intros Hm Hk.
  destruct (snd m) as [a| |]; cbn [fst]; try assumption.
  apply List.Forall_app. split; [assumption|apply Hk].
Qed.

Lemma emits_try {A} P (m : M A) h :
  emits P m -> (forall e, emits P (h e)) -> emits P (try m h).
Proof.
  unfold emits, try. intros Hm Hh.
  destruct (snd m) as [a|e|]; cbn [fst]; try assumption.
  apply List.Forall_app. split; [assumption|apply Hh].
Qed.

Lemma emits_map_M {A B} P (f : A -> M B) xs :
  (forall x, emits P (f x)) -> emits P (map_M f xs).
Proof.
  intros Hf. induction xs as [|x xs IH]; cbn [map_M]; [apply emits_ret|].
  apply emits_bind; [apply Hf|]. intros y.
  apply emits_bind; [apply IH|]. intros ys. apply emits_ret.
Qed.

Lemma emits_for_each {A S} P (body : S -> A -> M S) xs :
  (forall s x, emits P (body s x)) -> forall s, emits P (for_each xs body s).
Proof.
  intros Hb. induction xs as [|x xs IH]; intros s; cbn [for_each];
    [apply emits_ret|].
  apply emits_bind; [apply Hb|]. intros s'. apply IH.
Qed.

(** Steps through the binds of a computation to show that it halts, or
    that its events are of one kind. *)
Ltac stepping :=
  repeat first
    [ apply halts_ret | apply halts_raise | apply halts_emit
    | apply halts_lift | assumption
    | apply halts_bind; [|intros ?]
    | apply halts_try; [|intros ?]
    | apply emits_ret | apply emits_raise | apply emits_lift
    | apply emits_emit; reflexivity
    | apply emits_bind; [|intros ?]
    | apply emits_try; [|intros ?]
    | apply halts_for_each; intros ? ?
    | apply emits_for_each; intros ? ?
    | match goal with
      | |- halts (if ?b then _ else _) => destruct b
      | |- halts (match ?x with _ => _ end) => destruct x
      | |- emits _ (if ?b then _ else _) => destruct b
      | |- emits _ (match ?x with _ => _ end) => destruct x
      end ].

Lemma bind_done_inv {A B} (m : M A) (k : A -> M B) b :
  snd (bind m k) = Done b ->
  exists a, snd m = Done a /\ snd (k a) = Done b.
Proof.
  unfold bind. destruct (snd m) as [a| |]; cbn [snd]; try discriminate.
  intros H. exists a. auto.
Qed.

Lemma lift_done_inv {A} (r : result A) a : snd (lift r) = Done a -> r = inr a.
Proof. destruct r; cbn; congruence. Qed.

Lemma ret_done_inv {A} (a b : A) : snd (ret a) = Done b -> a = b.
Proof. cbn. congruence. Qed.

Lemma In_trace_bind_l {A B} (m : M A) (k : A -> M B) ev :
  List.In ev (trace m) -> List.In ev (trace (bind m k)).
Proof.
  unfold trace, bind. intros H.
  destruct (snd m); cbn [fst]; try assumption.
  apply List.in_app_iff. left. assumption.
Qed.

Lemma In_trace_bind_r {A B} (m : M A) (k : A -> M B) a ev :
  snd m = Done a -> List.In ev (trace (k a)) -> List.In ev (trace (bind m k)).
Proof.
  intros Hm H. rewrite (trace_bind_done m k a Hm).
  apply List.in_app_iff. right. assumption.
Qed.

Lemma In_trace_bind_inv {A B} (m : M A) (k : A -> M B) ev :
  List.In ev (trace (bind m k)) ->
  List.In ev (trace m)
  \/ exists a, snd m = Done a /\ List.In ev (trace (k a)).
Proof.
  unfold trace, bind. destruct (snd m) as [a| |]; cbn [fst]; auto.
  rewrite List.in_app_iff. intros [H|H]; eauto.
Qed.

Lemma In_trace_try_inv {A} (m : M A) h ev :
  List.In ev (trace (try m h)) ->
  List.In ev (trace m)
  \/ exists e, snd m = Raised e /\ List.In ev (trace (h e)).
Proof.
  unfold trace, try. destruct (snd m) as [a|e|]; cbn [fst]; auto.
  rewrite List.in_app_iff. intros [H|H]; eauto.
Qed.

Lemma emits_In {A} (P : event -> Prop) (m : M A) ev :
  emits P m -> List.In ev (trace m) -> P ev.
Proof. intros H Hin. exact (proj1 (List.Forall_forall P (fst m)) H ev Hin). Qed.

(** ** Timestamps: [parse_time_format] *)

Lemma is_digit_of d : d < 10 -> is_digit (48 + d) = true.
Proof.
  intros Hd. unfold is_digit, in_range.
  apply andb_true_intro; split; apply N.leb_le; lia.
Qed.

Lemma dec_digits_fuel_digits fuel : forall n acc,
  List.forallb is_digit acc = true ->
  List.forallb is_digit (dec_digits_fuel fuel n acc) = true.
Proof.
  induction fuel as [|f IH]; intros n acc Hacc; cbn [dec_digits_fuel];
    [exact Hacc|].
  destruct (N.ltb_spec n 10) as [Hlt|Hge].
  - cbn [List.forallb]. rewrite Hacc, is_digit_of by assumption. reflexivity.
  - apply IH. cbn [List.forallb]. rewrite Hacc, is_digit_of; [reflexivity|].
    apply N.mod_lt. lia.
Qed.

Lemma dec_digits_fuel_length fuel : forall n acc,
  (List.length acc < List.length (dec_digits_fuel (S fuel) n acc))%nat.
Proof.
  induction fuel as [|f IH]; intros n acc.
  - simpl. destruct (n <? 10); simpl; lia.
  - change (dec_digits_fuel (S (S f)) n acc)
      with (if n <? 10 then (48 + n) :: acc
            else dec_digits_fuel (S f) (n / 10) ((48 + n mod 10) :: acc)).
    destruct (n <? 10); [simpl; lia|].
    specialize (IH (n / 10) ((48 + n mod 10) :: acc)). simpl in IH |- *. lia.
Qed.

Lemma dec_digits_fuel_value fuel : forall n acc,
  n < 2 ^ N.of_nat fuel ->
  List.fold_left (fun a c => 10 * a + (c - 48)) (dec_digits_fuel fuel n acc) 0
  = List.fold_left (fun a c => 10 * a + (c - 48)) acc n.
Proof.
  induction fuel as [|f IH]; intros n acc Hn.
  - simpl in Hn. assert (n = 0) by lia. subst. reflexivity.
  - cbn [dec_digits_fuel]. destruct (N.ltb_spec n 10) as [Hlt|Hge].
    + cbn [List.fold_left]. f_equal. lia.
    + rewrite IH.
      * cbn [List.fold_left]. f_equal.
        pose proof (N.div_mod n 10 ltac:(lia)) as Hdm.
        set (q := n / 10) in *. set (r := n mod 10) in *. clearbody q r. lia.
      * rewrite Nat2N.inj_succ, N.pow_succ_r' in Hn.
        apply N.Div0.div_lt_upper_bound; lia.
Qed.

Lemma fuel_enough n : n < 2 ^ N.of_nat (S (N.to_nat (N.log2 n))).
Proof.
  rewrite Nat2N.inj_succ, N2Nat.id.
  destruct (N.eq_dec n 0) as [->|Hn]; [reflexivity|].
  apply N.log2_spec. lia.
Qed.

Lemma dec_digits_value n : dec_value (dec_digits n) = Z.of_N n.
Proof.
  unfold dec_value, dec_digits. rewrite dec_digits_fuel_value by apply fuel_enough.
  reflexivity.
Qed.

Lemma dec_digits_digits n : List.forallb is_digit (dec_digits n) = true.
Proof. apply dec_digits_fuel_digits. reflexivity. Qed.

Lemma dec_digits_two n :
  n < 100 ->
  List.repeat 48 (2 - List.length (dec_digits n)) ++ dec_digits n
  = [48 + n / 10; 48 + n mod 10].
Proof.
  intros Hn. unfold dec_digits.
  destruct (N.ltb_spec n 10) as [Hlt|Hge].
  - simpl. apply N.ltb_lt in Hlt as Hb. rewrite Hb. simpl.
    rewrite N.div_small, N.mod_small by lia. reflexivity.
  - assert (Hlog : 1 <= N.log2 n).
    { change 1 with (N.log2 2). apply N.log2_le_mono. lia. }
    destruct (N.to_nat (N.log2 n)) as [|k] eqn:Hk; [lia|].
    change (dec_digits_fuel (S (S k)) n [])
      with (if n <? 10 then [48 + n]
            else dec_digits_fuel (S k) (n / 10) [48 + n mod 10]).
    apply N.ltb_ge in Hge as Hb. rewrite Hb.
    simpl. assert (Hq : n / 10 < 10) by (apply N.Div0.div_lt_upper_bound; lia).
    apply N.ltb_lt in Hq. rewrite Hq. reflexivity.
Qed.

Lemma format_02_two z :
  (0 <= z < 100)%Z ->
  format_02 z = [48 + Z.to_N z / 10; 48 + Z.to_N z mod 10].
Proof.
  intros Hz. unfold format_02.
  destruct (Z.ltb_spec z 0); [lia|]. apply dec_digits_two. lia.
Qed.

Lemma take_while_digits d rest :
  List.forallb is_digit d = true ->
  take_while is_digit (d ++ 58 :: rest) = d.
Proof.
  induction d as [|c d IH]; intros Hd; [reflexivity|].
  cbn [List.forallb] in Hd. apply andb_prop in Hd as [Hc Hd].
  cbn [List.app take_while]. rewrite Hc, IH by assumption. reflexivity.
Qed.

Lemma drop_while_digits d rest :
  List.forallb is_digit d = true ->
  drop_while is_digit (d ++ 58 :: rest) = 58 :: rest.
Proof.
  induction d as [|c d IH]; intros Hd; [reflexivity|].
  cbn [List.forallb] in Hd. apply andb_prop in Hd as [Hc Hd].
  cbn [List.app drop_while]. rewrite Hc. auto.
Qed.

Lemma is_digit_not_colon c : is_digit c = true -> (58 =? c) = false.
Proof.
  unfold is_digit, in_range. intros H. apply andb_prop in H as [_ H].
  apply N.leb_le in H. apply N.eqb_neq. lia.
Qed.

(** Splitting at colons reads a run of digits into the current field. *)
Lemma split_colon_digits d : forall cur rest,
  List.forallb is_digit d = true ->
  split_go (lit ":") 0 cur (d ++ rest)
  = split_go (lit ":") 0 (List.rev d ++ cur) rest.
Proof.
  induction d as [|c d IH]; intros cur rest Hd; [reflexivity|].
  cbn [List.forallb] in Hd. apply andb_prop in Hd as [Hc Hd].
  cbn [List.app split_go]. change (lit ":") with [58].
  cbn [startswith]. rewrite (is_digit_not_colon c Hc). cbn [andb].
  change [58] with (lit ":"). rewrite IH by assumption.
  cbn [List.rev]. rewrite <- List.app_assoc. reflexivity.
Qed.

Lemma split_colon_last d :
  List.forallb is_digit d = true ->
  forall cur, split_go (lit ":") 0 cur d = [List.rev cur ++ d].
Proof.
  intros Hd cur. rewrite <- (List.app_nil_r d) at 1.
  rewrite split_colon_digits by assumption. cbn [split_go].
  rewrite List.rev_app_distr, List.rev_involutive. reflexivity.
Qed.

Lemma split_colon_field d rest :
  List.forallb is_digit d = true ->
  split (lit ":") (d ++ 58 :: rest) = d :: split (lit ":") rest.
Proof.
  intros Hd. unfold split. rewrite split_colon_digits by assumption.
  cbn [split_go]. change (lit ":") with [58]. cbn [startswith].
  rewrite N.eqb_refl. cbn [andb List.length Nat.sub].
  rewrite List.app_nil_r, List.rev_involutive. reflexivity.
Qed.

(** The hour field: digits, at least two of them, denoting the hours. *)
Lemma format_02_nonneg z :
  (0 <= z)%Z ->
  List.forallb is_digit (format_02 z) = true
  /\ (2 <= List.length (format_02 z))%nat
  /\ dec_value (format_02 z) = z.
Proof.
  intros Hz. unfold format_02. destruct (Z.ltb_spec z 0) as [?|_]; [lia|].
  cbv zeta. set (d := dec_digits (Z.to_N z)).
  assert (Hd : List.forallb is_digit d = true) by apply dec_digits_digits.
  assert (Hlen : (1 <= List.length d)%nat).
  { unfold d, dec_digits.
    pose proof (dec_digits_fuel_length (N.to_nat (N.log2 (Z.to_N z)))
                  (Z.to_N z) []) as H. cbn [List.length] in H. lia. }
  split; [|split].
  - rewrite List.forallb_app, Hd, andb_true_r.
    induction (2 - List.length d)%nat; [reflexivity|simpl; assumption].
  - rewrite List.length_app, List.repeat_length. lia.
  - transitivity (dec_value d).
    + unfold dec_value. f_equal. rewrite List.fold_left_app. f_equal.
      induction (2 - List.length d)%nat as [|k IHk]; [reflexivity|].
      cbn [List.repeat List.fold_left]. exact IHk.
    + unfold d. rewrite dec_digits_value. lia.
Qed.

Lemma two_digits_value a b :
  a < 10 -> b < 10 -> dec_value [48 + a; 48 + b] = Z.of_N (10 * a + b).
Proof. intros Ha Hb. unfold dec_value. cbn [List.fold_left]. f_equal. lia. Qed.

Lemma format_02_minsec z :
  (0 <= z < 60)%Z ->
  exists a b, format_02 z = [a; b] /\ is_digit a = true /\ is_digit b = true
              /\ dec_value [a; b] = z.
Proof.
  intros Hz. rewrite format_02_two by lia.
  assert (Ha : Z.to_N z / 10 < 10) by (apply N.Div0.div_lt_upper_bound; lia).
  assert (Hb : Z.to_N z mod 10 < 10) by (apply N.mod_lt; lia).
  exists (48 + Z.to_N z / 10), (48 + Z.to_N z mod 10).
  repeat split; try (apply is_digit_of; assumption).
  rewrite two_digits_value by assumption.
  pose proof (N.div_mod (Z.to_N z) 10 ltac:(lia)) as Hdm.
  set (q := Z.to_N z / 10) in *. set (r := Z.to_N z mod 10) in *.
  clearbody q r. lia.
Qed.

(** [int(x)] of a non-negative number, against an integer bound. *)
Lemma py_int_nonneg x : (0 <= num_Q x)%Q -> (0 <= py_int x)%Z.
Proof.
  destruct x as [z|[a d]]; unfold Qle; cbn; intros H.
  - lia.
  - apply Z.quot_pos; lia.
Qed.

Lemma py_int_bound x n :
  (0 <= num_Q x)%Q ->
  Qle_bool (inject_Z n) (num_Q x) = (n <=? py_int x)%Z.
Proof.
  destruct x as [z|[a d]]; unfold Qle, Qle_bool; cbn; intros H.
  - f_equal; lia.
  - rewrite Z.quot_div_nonneg by lia.
    destruct (Z.leb_spec (n * Z.pos d) (a * 1)) as [Hle|Hgt];
      symmetry; [apply Z.leb_le|apply Z.leb_gt].
    + apply Z.div_le_lower_bound; lia.
    + apply Z.div_lt_upper_bound; lia.
Qed.

(** C8: [parse_time_format] gives "00:00" for 0, "01:01:01" for 3661 and
    "00:59" for 59.  For every non-negative number of seconds [x], integer
    or float, the result below 3600 has the shape MM:SS, its fields being
    the minutes and the seconds of [int(x)]; from 3600 on it has the shape
    HH:MM:SS, its fields being the hours, minutes and seconds. *)
Theorem parse_time_format_shape (x : number) :
  (0 <= num_Q x)%Q ->
  parse_time_format (JInt 0) = inr (lit "00:00")
  /\ parse_time_format (JInt 3661) = inr (lit "01:01:01")
  /\ parse_time_format (JInt 59) = inr (lit "00:59")
  /\ exists out,
       parse_time_format (json_of_number x) = inr out
       /\ if Qle_bool (inject_Z 3600) (num_Q x)
          then is_HH_MM_SS out = true
               /\ clock_fields out
                  = [py_int x / 3600; py_int x mod 3600 / 60;
                     py_int x mod 60]%Z
          else is_MM_SS out = true
               /\ clock_fields out = [py_int x / 60; py_int x mod 60]%Z.
Proof.
  intros Hx. repeat (split; [reflexivity|]).
  rewrite (py_int_bound x 3600 Hx).
  pose proof (py_int_nonneg x Hx) as Ht.
  assert (Hnum : as_number (json_of_number x) = Some x) by (destruct x; reflexivity).
  unfold parse_time_format. rewrite Hnum. cbv zeta.
  set (t := py_int x) in *. clearbody t.
  pose proof (Z.mod_pos_bound t 3600 ltac:(lia)) as Hr.
  pose proof (Z.div_mod t 3600 ltac:(lia)) as Hdm.
  set (h := (t / 3600)%Z) in *. set (r := (t mod 3600)%Z) in *.
  pose proof (Z.mod_pos_bound r 60 ltac:(lia)) as Hs.
  pose proof (Z.div_mod r 60 ltac:(lia)) as Hdm'.
  set (m := (r / 60)%Z) in *. set (s := (r mod 60)%Z) in *.
  assert (Hts : (t mod 60 = s)%Z).
  { symmetry. apply (Z.mod_unique_pos t 60 (60 * h + m) s); lia. }
  rewrite Hts.
  assert (Hm : (0 <= m < 60)%Z).
  { unfold m. split; [apply Z.div_pos; lia|apply Z.div_lt_upper_bound; lia]. }
  assert (Hh : (0 <= h)%Z) by (unfold h; apply Z.div_pos; lia).
  clearbody h r m s.
  destruct (format_02_minsec m Hm) as (m1 & m2 & Em & Dm1 & Dm2 & Vm).
  destruct (format_02_minsec s Hs) as (s1 & s2 & Es & Ds1 & Ds2 & Vs).
  assert (Dms : List.forallb is_digit [m1; m2] = true)
    by (cbn [List.forallb]; rewrite Dm1, Dm2; reflexivity).
  assert (Dss : List.forallb is_digit [s1; s2] = true)
    by (cbn [List.forallb]; rewrite Ds1, Ds2; reflexivity).
  assert (Hms : clock_fields ([m1; m2] ++ 58 :: [s1; s2]) = [m; s]).
  { unfold clock_fields. rewrite split_colon_field by assumption.
    unfold split. rewrite split_colon_last by assumption.
    cbn [List.map List.rev List.app]. rewrite Vm, Vs. reflexivity. }
  eexists. split; [reflexivity|].
  rewrite Em, Es. change (lit ":") with [58].
  destruct (Z.leb_spec 3600 t) as [Hge|Hlt].
  - assert (Hh0 : (h =? 0)%Z = false) by (apply Z.eqb_neq; lia).
    rewrite Hh0. cbn [negb].
    destruct (format_02_nonneg h Hh) as (Dh & Lh & Vh).
    split.
    + unfold is_HH_MM_SS.
      change (format_02 h ++ [58] ++ [m1; m2] ++ [58] ++ [s1; s2])
        with (format_02 h ++ 58 :: [m1; m2; 58; s1; s2]).
      rewrite take_while_digits, drop_while_digits by assumption.
      apply Nat.leb_le in Lh. rewrite Lh. cbn [is_MM_SS andb].
      rewrite Dm1, Dm2, Ds1, Ds2. reflexivity.
    + unfold clock_fields in *.
      change (format_02 h ++ [58] ++ [m1; m2] ++ [58] ++ [s1; s2])
        with (format_02 h ++ 58 :: ([m1; m2] ++ 58 :: [s1; s2])).
      rewrite split_colon_field by assumption.
      cbn [List.map]. rewrite Hms, Vh. reflexivity.
  - assert (Hh0 : (h =? 0)%Z = true) by (apply Z.eqb_eq; lia).
    rewrite Hh0. cbn [negb]. split.
    + cbn [List.app is_MM_SS]. rewrite Dm1, Dm2, Ds1, Ds2. reflexivity.
    + assert (Hq : (t / 60 = m)%Z).
      { symmetry. apply (Z.div_unique_pos t 60 m s); lia. }
      rewrite Hq. exact Hms.
Qed.

(** A run of 3661 seconds. *)
Lemma parse_time_format_shape_witness :
  parse_time_format (JInt 3661) = inr (lit "01:01:01")
  /\ is_HH_MM_SS (lit "01:01:01") = true
  /\ clock_fields (lit "01:01:01") = [1; 1; 1]%Z.
Proof.
  destruct (parse_time_format_shape (NInt 3661)) as (_ & H & _ & out & Ho & Hs).
  - unfold Qle; cbn; lia.
  - cbn [json_of_number] in Ho. rewrite H in Ho. injection Ho as <-.
    exact (conj H Hs).
Defined.

(** ** Sanitized text: [sanitize_text] *)

Lemma re_sub_class_delete cls s :
  re_sub_class cls [] s = List.filter (fun c => negb (cls c)) s.
Proof.
  induction s as [|c s IH]; [reflexivity|].
  cbn [re_sub_class List.filter]. destruct (cls c); cbn [negb List.app];
    rewrite IH; reflexivity.
Qed.

Lemma In_drop_while p c s : List.In c (drop_while p s) -> List.In c s.
Proof.
  induction s as [|x s IH]; [trivial|]. cbn [drop_while].
  destruct (p x); [right; auto|trivial].
Qed.

Lemma In_rstrip c s : List.In c (rstrip s) -> List.In c s.
Proof.
  induction s as [|x s IH]; [trivial|]. cbn [rstrip].
  destruct (rstrip s) as [|y r].
  - destruct (is_space x); [intros []|]. intros [->|[]]. left; reflexivity.
  - intros [->|H]; [left; reflexivity|right; auto].
Qed.

Lemma In_strip c s : List.In c (strip s) -> List.In c s.
Proof. intros H. apply In_drop_while with is_space, In_rstrip, H. Qed.

Lemma In_re_sub_runs c s : forall b,
  List.In c (re_sub_runs is_space (lit " ") b s) ->
  c = 32 \/ (List.In c s /\ is_space c = false).
Proof.
  induction s as [|x s IH]; intros b; [intros []|].
  cbn [re_sub_runs]. destruct (is_space x) eqn:Hx.
  - destruct b.
    + intros H. destruct (IH _ H) as [?|[? ?]]; [left|right; split]; auto.
      right; assumption.
    + change (lit " ") with [32]. cbn [List.app]. intros [<-|H]; [left; reflexivity|].
      destruct (IH _ H) as [?|[? ?]]; [left|right; split]; auto.
      right; assumption.
  - intros [<-|H].
    + right. split; [left; reflexivity|assumption].
    + destruct (IH _ H) as [?|[? ?]]; [left|right; split]; auto.
      right; assumption.
Qed.

Lemma spaced_re_sub_runs s : forall b,
  spaced b (re_sub_runs is_space (lit " ") b s) = true.
Proof.
  induction s as [|x s IH]; intros b; [reflexivity|].
  cbn [re_sub_runs]. destruct (is_space x) eqn:Hx.
  - destruct b; [apply IH|].
    change (lit " ") with [32]. cbn [List.app spaced].
    change (is_space 32) with true. cbn. apply IH.
  - cbn [spaced]. rewrite Hx. apply IH.
Qed.

Lemma spaced_lstrip s : forall b, spaced b s = true -> spaced true (lstrip s) = true.
Proof.
  unfold lstrip. induction s as [|x s IH]; intros b H; [reflexivity|].
  cbn [drop_while]. cbn [spaced] in H. destruct (is_space x) eqn:Hx.
  - apply andb_prop in H as [_ H]. eauto.
  - cbn [spaced]. rewrite Hx. exact H.
Qed.

Lemma tight_rstrip s : forall b,
  spaced b s = true -> rstrip s <> [] -> tight b (rstrip s) = true.
Proof.
  induction s as [|x s IH]; intros b H Hne; [contradiction|].
  cbn [rstrip] in *. cbn [spaced] in H.
  destruct (rstrip s) as [|y r] eqn:Hr.
  - destruct (is_space x) eqn:Hx; [contradiction|].
    cbn [tight]. rewrite Hx. reflexivity.
  - cbn [tight]. destruct (is_space x).
    + apply andb_prop in H as [H1 H2]. rewrite H1. apply IH; [assumption|discriminate].
    + apply IH; [assumption|discriminate].
Qed.

Lemma single_spaced_strip s b :
  spaced b s = true -> single_spaced (strip s) = true.
Proof.
  intros H. unfold single_spaced, strip.
  destruct (rstrip (lstrip s)) eqn:Hr; [reflexivity|]. rewrite <- Hr.
  apply tight_rstrip; [eapply spaced_lstrip; eassumption|congruence].
Qed.

(** The characters that are not white space pass through the collapsing
    and the stripping. *)
Lemma nonspace_re_sub_runs s : forall b,
  List.filter (fun c => negb (is_space c)) (re_sub_runs is_space (lit " ") b s)
  = List.filter (fun c => negb (is_space c)) s.
Proof.
  induction s as [|x s IH]; intros b; [reflexivity|].
  cbn [re_sub_runs List.filter]. destruct (is_space x) eqn:Hx; cbn [negb].
  - destruct b; [apply IH|].
    change (lit " ") with [32]. cbn [List.app List.filter].
    change (is_space 32) with true. cbn [negb]. apply IH.
  - cbn [List.filter]. rewrite Hx. cbn [negb]. f_equal. apply IH.
Qed.

Lemma nonspace_lstrip s :
  List.filter (fun c => negb (is_space c)) (lstrip s)
  = List.filter (fun c => negb (is_space c)) s.
Proof.
  unfold lstrip. induction s as [|x s IH]; [reflexivity|].
  cbn [drop_while List.filter]. destruct (is_space x) eqn:Hx; cbn [negb].
  - exact IH.
  - cbn [List.filter]. rewrite Hx. reflexivity.
Qed.

Lemma nonspace_rstrip s :
  List.filter (fun c => negb (is_space c)) (rstrip s)
  = List.filter (fun c => negb (is_space c)) s.
Proof.
  induction s as [|x s IH]; [reflexivity|].
  cbn [rstrip List.filter]. rewrite <- IH.
  destruct (rstrip s) as [|y r]; destruct (is_space x) eqn:Hx; cbn [negb];
    cbn [List.filter]; rewrite ?Hx; reflexivity.
Qed.

Lemma nonspace_strip s :
  List.filter (fun c => negb (is_space c)) (strip s)
  = List.filter (fun c => negb (is_space c)) s.
Proof. unfold strip. rewrite nonspace_rstrip. apply nonspace_lstrip. Qed.

Lemma filter_filter (p q : char -> bool) s :
  List.filter p (List.filter q s) = List.filter (fun c => q c && p c) s.
Proof.
  induction s as [|x s IH]; [reflexivity|]. cbn [List.filter].
  destruct (q x); cbn [andb List.filter]; [destruct (p x)|]; rewrite IH; reflexivity.
Qed.

Lemma emoji_and_non_utf8_false c : emoji_and_non_utf8 c = false <-> c <= 65535.
Proof.
  unfold emoji_and_non_utf8, in_range. rewrite negb_false_iff, orb_true_iff.
  rewrite !andb_true_iff, !N.leb_le. lia.
Qed.

(** The early return on the empty text agrees with the general path. *)
Lemma lstrip_head s :
  match lstrip s with c :: _ => is_space c = false | [] => True end.
Proof.
  unfold lstrip. induction s as [|c s IH]; [exact I|]. cbn [drop_while].
  destruct (is_space c) eqn:Hc; [exact IH|exact Hc].
Qed.

(** Collapsing the runs of white space and stripping the ends leaves the
    tokens, one blank between neighbours. *)
Lemma lstrip_re_sub_runs s : forall b,
  lstrip (re_sub_runs is_space (lit " ") b s)
  = re_sub_runs is_space (lit " ") false (lstrip s).
Proof.
  unfold lstrip. induction s as [|c s IH]; intros b; [reflexivity|].
  cbn [re_sub_runs drop_while]. destruct (is_space c) eqn:Hc.
  - destruct b; [apply IH|]. change (lit " ") with [32]. cbn [List.app drop_while].
    change (is_space 32) with true. cbv iota. apply IH.
  - cbn [drop_while re_sub_runs]. rewrite Hc. reflexivity.
Qed.

Lemma tokens_lstrip s : tokens (lstrip s) = tokens s.
Proof.
  unfold lstrip, tokens. induction s as [|c s IH]; [reflexivity|].
  cbn [drop_while split_words]. destruct (is_space c) eqn:Hc.
  - rewrite IH. destruct (split_words s) as [w ws]. reflexivity.
  - cbn [split_words]. rewrite Hc. reflexivity.
Qed.

Lemma split_words_nonempty s :
  List.Forall (fun w => w <> []) (snd (split_words s)).
Proof.
  induction s as [|c s IH]; [constructor|]. cbn [split_words].
  destruct (split_words s) as [w ws]. cbn [snd] in IH.
  destruct (is_space c); cbn [snd]; [|exact IH].
  destruct w; cbn [push_word]; [exact IH|]. constructor; [discriminate|exact IH].
Qed.

Lemma join_blank_nil ws :
  List.Forall (fun w => w <> []) ws -> join_blank ws = [] -> ws = [].
Proof.
  intros H. destruct H as [|w ws Hw _]; [reflexivity|].
  cbn [join_blank]. destruct ws; [congruence|].
  destruct w; [congruence|discriminate].
Qed.

Lemma rstrip_collapse s : forall b,
  rstrip (re_sub_runs is_space (lit " ") b s)
  = match tokens s with
    | [] => []
    | ts =>
        (match fst (split_words s) with
         | [] => if b then [] else [32]
         | _ => []
         end) ++ join_blank ts
    end.
Proof.
  unfold tokens. induction s as [|c s IH]; intros b; [reflexivity|].
  pose proof (split_words_nonempty s) as Hne.
  cbn [re_sub_runs split_words].
  destruct (split_words s) as [w ws] eqn:Hsw. cbn [fst snd] in *.
  destruct (is_space c) eqn:Hc; cbn [fst snd push_word].
  - assert (Htrue : rstrip (re_sub_runs is_space (lit " ") true s)
                    = join_blank (push_word w ws)).
    { rewrite IH. destruct w; cbn [push_word]; [|reflexivity].
      destruct ws; reflexivity. }
    destruct b.
    + rewrite Htrue. destruct (push_word w ws); reflexivity.
    + change (rstrip (lit " " ++ re_sub_runs is_space (lit " ") true s))
        with (match rstrip (re_sub_runs is_space (lit " ") true s) with
              | [] => []
              | r => 32 :: r
              end).
      rewrite Htrue.
      destruct (push_word w ws) as [|t ts] eqn:Hp; [reflexivity|].
      destruct (join_blank (t :: ts)) eqn:Hj; [|reflexivity].
      apply join_blank_nil in Hj; [discriminate|].
      rewrite <- Hp. destruct w; cbn [push_word]; [exact Hne|].
      constructor; [discriminate|exact Hne].
  - cbn [rstrip]. rewrite (IH false), Hc.
    destruct w as [|c' w]; cbn [push_word].
    + destruct ws as [|t ts]; reflexivity.
    + cbn [List.app]. destruct ws as [|t ts]; reflexivity.
Qed.

Lemma strip_collapse s :
  strip (re_sub_runs is_space (lit " ") false s) = join_blank (tokens s).
Proof.
  unfold strip. rewrite lstrip_re_sub_runs, rstrip_collapse, tokens_lstrip.
  destruct (tokens s) as [|t ts] eqn:Ht; [reflexivity|].
  pose proof (lstrip_head s) as Hh.
  destruct (lstrip s) as [|c r] eqn:Hl; [rewrite <- tokens_lstrip, Hl in Ht; discriminate|].
  cbn [split_words]. destruct (split_words r) as [w ws]. rewrite Hh.
  reflexivity.
Qed.

Lemma sanitize_text_unfold text :
  sanitize_text text
  = strip (re_sub_runs is_space (lit " ") false
             (re_sub_class emoji_and_non_utf8 []
                (re_sub_class regex_special_chars [] text))).
Proof. destruct text; reflexivity. Qed.

(** C3, as the code has it: [sanitize_text] removes the fourteen
    regex-special characters and every code point above U+FFFF (not the
    other non-ASCII characters), collapses every run of white space to one
    U+0020 and strips the ends.  The result is exactly the tokens of what
    is left after the removal (its maximal runs of characters that are not
    white space), in order, with one U+0020 between neighbours.  So every
    character of the result is outside the special class, is at most
    U+FFFF, and is U+0020 if it is white space; the result is
    single-spaced; and its characters that are not white space are those
    of the input that are neither special nor above U+FFFF, in order. *)
Theorem sanitize_text_spec (text : str) :
  (forall c, List.In c (sanitize_text text) ->
             regex_special_chars c = false /\ c <= 65535
             /\ (is_space c = true -> c = 32))
  /\ single_spaced (sanitize_text text) = true
  /\ List.filter (fun c => negb (is_space c)) (sanitize_text text)
     = List.filter (fun c => negb (is_space c) && kept_in_text c) text
  /\ sanitize_text text
     = join_blank (tokens (List.filter kept_in_text text)).
Proof.
  assert (Hkept : re_sub_class emoji_and_non_utf8 []
                    (re_sub_class regex_special_chars [] text)
                  = List.filter kept_in_text text).
  { rewrite !re_sub_class_delete, filter_filter. apply List.filter_ext.
    intros c. unfold kept_in_text. f_equal.
    destruct (N.leb_spec c 65535) as [H|H].
    - apply emoji_and_non_utf8_false in H. rewrite H. reflexivity.
    - destruct (emoji_and_non_utf8 c) eqn:He; [reflexivity|].
      apply emoji_and_non_utf8_false in He. lia. }
  assert (Heq : sanitize_text text
                = join_blank (tokens (List.filter kept_in_text text))).
  { rewrite sanitize_text_unfold, Hkept. apply strip_collapse. }
  split; [|split; [|split; [|exact Heq]]]; rewrite sanitize_text_unfold.
  - intros c Hc. apply In_strip, In_re_sub_runs in Hc.
    destruct Hc as [->|[Hc Hs]].
    + repeat split. apply emoji_and_non_utf8_false. reflexivity.
    + rewrite !re_sub_class_delete in Hc.
      apply List.filter_In in Hc as [Hc H2]. apply List.filter_In in Hc as [_ H1].
      apply negb_true_iff in H1, H2. apply emoji_and_non_utf8_false in H2.
      repeat split; [assumption..|]. congruence.
  - apply single_spaced_strip with false, spaced_re_sub_runs.
  - rewrite nonspace_strip, nonspace_re_sub_runs, !re_sub_class_delete.
    rewrite !filter_filter. apply List.filter_ext. intros c.
    unfold kept_in_text.
    assert (negb (emoji_and_non_utf8 c) = (c <=? 65535)) as ->.
    { destruct (N.leb_spec c 65535) as [H|H].
      - apply emoji_and_non_utf8_false in H. rewrite H. reflexivity.
      - destruct (emoji_and_non_utf8 c) eqn:He; [reflexivity|].
        apply emoji_and_non_utf8_false in He. lia. }
    destruct (regex_special_chars c), (c <=? 65535), (is_space c); reflexivity.
Qed.

(** C3, as stated, fails: in "cafe" written with an acute accent on the e
    (U+00E9, 233) that letter is kept, and it is not printable ASCII. *)
Lemma sanitize_text_keeps_non_ascii :
  ~ (forall text c, List.In c (sanitize_text text) -> is_printable_ascii c = true).
Proof.
  intros H. specialize (H [99; 97; 102; 233] 233).
  assert (Hin : List.In 233 (sanitize_text [99; 97; 102; 233]))
    by (vm_compute; tauto).
  apply H in Hin. vm_compute in Hin. discriminate.
Qed.

(** ** File names: [sanitize_filename] *)

Lemma rstrip_length s : (List.length (rstrip s) <= List.length s)%nat.
Proof.
  induction s as [|c s IH]; [reflexivity|]. cbn [rstrip].
  destruct (rstrip s); [destruct (is_space c)|]; cbn [List.length] in *; lia.
Qed.

Lemma rstrip_idempotent s : rstrip (rstrip s) = rstrip s.
Proof.
  induction s as [|c s IH]; [reflexivity|]. cbn [rstrip].
  destruct (rstrip s) as [|y r] eqn:Hr.
  - destruct (is_space c) eqn:Hc; [reflexivity|]. cbn [rstrip]. rewrite Hc.
    reflexivity.
  - cbn [rstrip] in IH |- *. rewrite IH. reflexivity.
Qed.

(** A string that does not begin with white space. *)

Lemma rstrip_head c s :
  is_space c = false -> exists r, rstrip (c :: s) = c :: r.
Proof.
  intros Hc. cbn [rstrip]. rewrite Hc. destruct (rstrip s); eauto.
Qed.

Lemma strip_head s :
  match strip s with c :: _ => is_space c = false | [] => True end.
Proof.
  unfold strip. pose proof (lstrip_head s) as H.
  destruct (lstrip s) as [|c l]; [exact I|].
  destruct (rstrip_head c l H) as [r ->]. exact H.
Qed.

Lemma lstrip_fixed c s : is_space c = false -> lstrip (c :: s) = c :: s.
Proof. intros Hc. unfold lstrip. cbn [drop_while]. rewrite Hc. reflexivity. Qed.

Lemma re_sub_class_fixed cls s :
  List.forallb (fun c => negb (cls c)) s = true -> re_sub_class cls [] s = s.
Proof.
  induction s as [|c s IH]; [reflexivity|]. cbn [List.forallb re_sub_class].
  intros H. apply andb_prop in H as [Hc Hs]. apply negb_true_iff in Hc.
  rewrite Hc, IH by assumption. reflexivity.
Qed.

Lemma In_firstn (c : char) n : forall s,
  List.In c (List.firstn n s) -> List.In c s.
Proof.
  induction n as [|n IH]; intros [|x s]; cbn [List.firstn]; try (intros []).
  - left; assumption.
  - right; auto.
Qed.

Lemma forallb_incl (p : char -> bool) s t :
  (forall c, List.In c t -> List.In c s) ->
  List.forallb p s = true -> List.forallb p t = true.
Proof.
  intros Hin Hs. apply List.forallb_forall. intros c Hc.
  apply (proj1 (List.forallb_forall p s) Hs), Hin, Hc.
Qed.

Lemma re_sub_class_kept cls s :
  List.forallb (fun c => negb (cls c)) (re_sub_class cls [] s) = true.
Proof.
  rewrite re_sub_class_delete. apply List.forallb_forall. intros c Hc.
  apply List.filter_In in Hc. tauto.
Qed.

Section SanitizeFilename.

Variable tbl : char -> bool.

Lemma sanitize_untitled m :
  (8 <= m)%Z ->
  sanitize_filename tbl (lit "untitled") m = lit "untitled".
Proof.
  intros Hm. unfold sanitize_filename.
  replace (strip (re_sub_class (pat_sanitize_filename tbl) [] (lit "untitled")))
    with (lit "untitled") by (vm_compute; reflexivity).
  unfold slice_to. destruct (Z.leb_spec 0 m); [|lia].
  rewrite List.firstn_all2; [reflexivity|].
  change (List.length (lit "untitled")) with 8%nat. lia.
Qed.

(** C4, as the code has it: with a maximum length of at least eight, a
    second [sanitize_filename] strips the white space the truncation left
    at the end of the first result and changes nothing else.  So the
    function is idempotent on every name whose sanitized form does not
    end in white space, in particular on every name that, once its
    characters are removed and it is stripped, fits the maximum length. *)
Theorem sanitize_filename_twice (s : str) (m : Z) :
  (8 <= m)%Z ->
  let once := sanitize_filename tbl s m in
  sanitize_filename tbl once m = rstrip once
  /\ (rstrip once = once -> sanitize_filename tbl once m = once)
  /\ ((Z.of_nat (List.length
                   (strip (re_sub_class (pat_sanitize_filename tbl) [] s)))
       <= m)%Z ->
      sanitize_filename tbl once m = once).
Proof.
  intros Hm once.
  assert (Hfirst : sanitize_filename tbl once m = rstrip once).
  { set (u := strip (re_sub_class (pat_sanitize_filename tbl) [] s)).
    assert (Honce : once = match slice_to m u with
                           | [] => lit "untitled"
                           | _ => slice_to m u
                           end) by reflexivity.
    clearbody once. destruct (slice_to m u) as [|c t] eqn:Ht; subst once.
    - rewrite sanitize_untitled by assumption. reflexivity.
    - assert (Hkept : List.forallb (fun c => negb (pat_sanitize_filename tbl c))
                        (c :: t) = true).
      { rewrite <- Ht.
        apply forallb_incl
          with (s := re_sub_class (pat_sanitize_filename tbl) [] s);
          [|apply re_sub_class_kept].
        intros x Hx. apply In_strip. fold u. unfold slice_to in Hx.
        destruct (0 <=? m)%Z; eapply In_firstn, Hx. }
      assert (Hc : is_space c = false).
      { pose proof (strip_head (re_sub_class (pat_sanitize_filename tbl) [] s)) as H.
        fold u in H. unfold slice_to in Ht.
        destruct (0 <=? m)%Z, u as [|c' u']; try exact I;
          try (rewrite List.firstn_nil in Ht; discriminate).
        - destruct (Z.to_nat m); [discriminate|]. cbn in Ht. congruence.
        - destruct (List.length (c' :: u') - Z.to_nat (- m))%nat;
            [discriminate|]. cbn in Ht. congruence. }
      unfold sanitize_filename. rewrite re_sub_class_fixed by assumption.
      unfold strip. rewrite lstrip_fixed by assumption.
      assert (Hlen : (List.length (c :: t) <= Z.to_nat m)%nat).
      { rewrite <- Ht. unfold slice_to. destruct (Z.leb_spec 0 m); [|lia].
        rewrite List.length_firstn. lia. }
      unfold slice_to. destruct (Z.leb_spec 0 m); [|lia].
      rewrite List.firstn_all2
        by (pose proof (rstrip_length (c :: t)); lia).
      destruct (rstrip_head c t Hc) as [r Hr]. rewrite Hr. reflexivity. }
  split; [exact Hfirst|]. split.
  - intros Hr. rewrite Hfirst. exact Hr.
  - intros Hfit. rewrite Hfirst. unfold once, sanitize_filename.
    set (u := strip (re_sub_class (pat_sanitize_filename tbl) [] s)) in *.
    unfold slice_to. destruct (Z.leb_spec 0 m); [|lia].
    rewrite List.firstn_all2 by lia.
    destruct u as [|c t] eqn:Hu; [reflexivity|].
    rewrite <- Hu. unfold u, strip. apply rstrip_idempotent.
Qed.

End SanitizeFilename.

(** A title with punctuation and surrounding blanks, under the default
    maximum length. *)
Lemma sanitize_filename_twice_witness :
  sanitize_filename (fun _ => false)
    (sanitize_filename (fun _ => false) (lit "  Rocq: a tour (part 1)  ")
       TRANSCRIPT_FILENAME_LENGTH)
    TRANSCRIPT_FILENAME_LENGTH
  = sanitize_filename (fun _ => false) (lit "  Rocq: a tour (part 1)  ")
      TRANSCRIPT_FILENAME_LENGTH.
Proof.
  destruct (sanitize_filename_twice (fun _ => false)
              (lit "  Rocq: a tour (part 1)  ") TRANSCRIPT_FILENAME_LENGTH)
    as (_ & _ & H).
  - unfold TRANSCRIPT_FILENAME_LENGTH. lia.
  - apply H. vm_compute. discriminate.
Defined.

(** C4, as stated, fails under the default maximum length of 36: of
    thirty-five letters, a blank and one more letter the first call keeps
    thirty-six characters, the blank last, and the second call strips it. *)
Lemma sanitize_filename_not_idempotent :
  ~ (forall (tbl : char -> bool) (s : str),
       sanitize_filename tbl
         (sanitize_filename tbl s TRANSCRIPT_FILENAME_LENGTH)
         TRANSCRIPT_FILENAME_LENGTH
       = sanitize_filename tbl s TRANSCRIPT_FILENAME_LENGTH).
Proof.
  intros H.
  specialize (H (fun _ => false) (List.repeat 97 35 ++ lit " b")).
  vm_compute in H. discriminate.
Qed.

(** ** Duplicate detection: [find_duplicate_transcripts] *)

Lemma str_eqb_eq a : forall b, str_eqb a b = true <-> a = b.
Proof.
  induction a as [|x a IH]; intros [|y b]; cbn [str_eqb];
    try (split; [discriminate|congruence]); [tauto|].
  rewrite andb_true_iff, N.eqb_eq, IH. split; [intros [-> ->]|intros [= -> ->]]; auto.
Qed.

Lemma str_eqb_refl a : str_eqb a a = true.
Proof. apply str_eqb_eq. reflexivity. Qed.

Lemma digest_eqb_eq a b : digest_eqb a b = true <-> a = b.
Proof.
  destruct a, b; cbn [digest_eqb]; rewrite ?str_eqb_eq;
    split; congruence.
Qed.

Lemma digest_eqb_neq a b : digest_eqb a b = false <-> a <> b.
Proof.
  rewrite <- digest_eqb_eq. destruct (digest_eqb a b); split; congruence.
Qed.

Lemma bytes_eqb_eq a : forall b, bytes_eqb a b = true <-> a = b.
Proof.
  induction a as [|x a IH]; intros [|y b]; cbn [bytes_eqb];
    try (split; [discriminate|congruence]); [tauto|].
  rewrite andb_true_iff, IH. split.
  - intros [Hxy ->]. apply Byte.byte_dec_bl in Hxy. congruence.
  - intros [= -> ->]. split; [apply Byte.byte_dec_lb|]; reflexivity.
Qed.

(** Reading a file chunk by chunk feeds the hash the whole content. *)
Lemma read_chunks_fed fuel size : forall data fed,
  (0 < size)%nat -> (List.length data <= fuel)%nat ->
  List.fold_left sha1_update (read_chunks fuel size data) fed = fed ++ data.
Proof.
  induction fuel as [|k IH]; intros [|b data] fed Hsize Hlen;
    cbn [read_chunks List.fold_left]; rewrite ?List.app_nil_r; try reflexivity.
  - cbn [List.length] in Hlen. lia.
  - rewrite IH.
    + unfold sha1_update. rewrite <- List.app_assoc, List.firstn_skipn.
      reflexivity.
    + assumption.
    + rewrite List.length_skipn. cbn [List.length] in Hlen |- *. lia.
Qed.

Lemma compute_sha1_result w p :
  snd (compute_sha1 w p) = Done (file_digest w p).
Proof.
  unfold compute_sha1, file_digest, try, bind, emit, lift, ret.
  destruct (read_bytes w p) as [e|data]; cbn [fst snd]; [reflexivity|].
  rewrite read_chunks_fed; [reflexivity| |lia].
  unfold chunk_size. lia.
Qed.

Lemma scan_file_result w root st file :
  snd (scan_file w root st file)
  = Done (if endswith file (lit ".json")
          then step_file w st (path_join root file) else st).
Proof.
  unfold scan_file. destruct st as [hashes duplicates].
  destruct (endswith file (lit ".json")); [|reflexivity].
  rewrite (snd_bind_done _ _ _ (compute_sha1_result w (path_join root file))).
  unfold step_file. cbn [fst snd].
  destruct (hashes !! file_digest w (path_join root file)); reflexivity.
Qed.

Lemma fold_files w root files : forall st,
  List.fold_left
    (fun st file => if endswith file (lit ".json")
                    then step_file w st (path_join root file) else st)
    files st
  = List.fold_left (step_file w)
      (List.map (path_join root)
         (List.filter (fun file => endswith file (lit ".json")) files)) st.
Proof.
  induction files as [|f files IH]; intros st; [reflexivity|].
  cbn [List.fold_left List.filter].
  destruct (endswith f (lit ".json")); cbn [List.map List.fold_left]; apply IH.
Qed.

(** The scan is the fold of [step_file] over the record files. *)
Lemma scan_result w dir :
  snd (scan w dir)
  = Done (List.fold_left (step_file w) (json_paths w dir) (∅, [])).
Proof.
  unfold scan, json_paths.
  rewrite (for_each_fold (scan_directory w)
             (fun st entry =>
                List.fold_left (step_file w)
                  (List.map (path_join (fst entry))
                     (List.filter (fun file => endswith file (lit ".json"))
                        (snd entry))) st)).
  - f_equal. generalize (∅ : gmap (option str) str, @nil (str * str)).
    induction (walk w dir) as [|entry l IH]; intros st; [reflexivity|].
    cbn [List.fold_left List.flat_map]. rewrite List.fold_left_app. apply IH.
  - intros st [root files]. unfold scan_directory. cbn [fst snd].
    rewrite (for_each_fold (scan_file w root)
               (fun st file => if endswith file (lit ".json")
                               then step_file w st (path_join root file)
                               else st)).
    + f_equal. apply fold_files.
    + intros. apply scan_file_result.
Qed.

Lemma first_with_app w k seen p :
  first_with w k (seen ++ [p])
  = match first_with w k seen with
    | Some o => Some o
    | None => if digest_eqb (file_digest w p) k then Some p else None
    end.
Proof.
  unfold first_with. induction seen as [|x seen IH]; cbn [List.app List.find].
  - reflexivity.
  - destruct (has_digest w k x); [reflexivity|exact IH].
Qed.

(** The invariant of the scan: [hashes] maps every digest to the first
    file seen with it, and the pairs found are the expected ones. *)
Lemma fold_step_file w ps : forall (hashes : gmap (option str) str) dups seen,
  (forall k, hashes !! k = first_with w k seen) ->
  exists hashes' : gmap (option str) str,
    List.fold_left (step_file w) ps (hashes, dups)
    = (hashes', dups ++ expected_pairs w seen ps)
    /\ forall k, hashes' !! k = first_with w k (seen ++ ps).
Proof.
  induction ps as [|p ps IH]; intros hashes dups seen Hinv.
  - exists hashes. rewrite !List.app_nil_r. auto.
  - cbn [List.fold_left expected_pairs]. unfold step_file at 2. cbn [fst snd].
    rewrite Hinv.
    destruct (first_with w (file_digest w p) seen) as [o|] eqn:Hfirst.
    + destruct (IH hashes (dups ++ [(p, o)]) (seen ++ [p])) as (h' & Hf & Hh).
      * intros k. rewrite first_with_app, <- Hinv.
        destruct (hashes !! k) eqn:Hk; [reflexivity|].
        destruct (digest_eqb (file_digest w p) k) eqn:Hd; [|reflexivity].
        apply digest_eqb_eq in Hd. subst k. rewrite Hinv in Hk. congruence.
      * exists h'. rewrite Hf, <- ?List.app_assoc. split; [reflexivity|].
        intros k. rewrite Hh, <- List.app_assoc. reflexivity.
    + destruct (IH (<[file_digest w p := p]> hashes) dups (seen ++ [p]))
        as (h' & Hf & Hh).
      * intros k. rewrite first_with_app, <- Hinv.
        destruct (digest_eqb (file_digest w p) k) eqn:Hd.
        -- apply digest_eqb_eq in Hd. subst k.
           rewrite lookup_insert_eq, Hinv, Hfirst. reflexivity.
        -- apply digest_eqb_neq in Hd. rewrite lookup_insert_ne by assumption.
           destruct (hashes !! k); reflexivity.
      * exists h'. rewrite Hf, <- ?List.app_assoc. split; [reflexivity|].
        intros k. rewrite Hh, <- List.app_assoc. reflexivity.
Qed.

(** What a scan finds: the expected pairs of the record files. *)
Lemma scan_finds w dir :
  exists hashes,
    snd (scan w dir) = Done (hashes, expected_pairs w [] (json_paths w dir)).
Proof.
  rewrite scan_result.
  destruct (fold_step_file w (json_paths w dir) ∅ [] []) as (h & Hf & _).
  - intros k. apply lookup_empty.
  - exists h. rewrite Hf. reflexivity.
Qed.

Section Bucket.

Variable w : World.
Variable k : option str.

Abbreviation inb := (has_digest w k).

Lemma first_with_found d seen o :
  first_with w d seen = Some o ->
  List.In o seen /\ file_digest w o = d.
Proof.
  unfold first_with. intros H. apply List.find_some in H as [Hin Hd].
  apply digest_eqb_eq in Hd. auto.
Qed.

(** A pair relates two files of one digest, the duplicate among the files
    scanned and the original among those met before it. *)
Lemma expected_pairs_sound ps : forall seen d o,
  List.In (d, o) (expected_pairs w seen ps) ->
  List.In d ps /\ List.In o (seen ++ ps)
  /\ file_digest w o = file_digest w d.
Proof.
  induction ps as [|p ps IH]; intros seen d o; cbn [expected_pairs];
    [intros []|].
  rewrite List.in_app_iff. intros [H|H].
  - destruct (first_with w (file_digest w p) seen) as [o'|] eqn:Hf;
      [|destruct H].
    destruct H as [[= <- <-]|[]].
    apply first_with_found in Hf as [Hin Hd].
    repeat split; [left; reflexivity| |assumption].
    apply List.in_app_iff. left. assumption.
  - apply IH in H as (Hd & Ho & He). repeat split; [right; assumption| |assumption].
    rewrite <- List.app_assoc in Ho. exact Ho.
Qed.

(** Within one digest, every file after the first is paired with the
    first. *)
Lemma expected_pairs_bucket ps : forall seen,
  List.filter (fun pr => inb (fst pr)) (expected_pairs w seen ps)
  = match first_with w k seen with
    | Some o => List.map (fun p => (p, o)) (List.filter inb ps)
    | None =>
        match List.filter inb ps with
        | [] => []
        | p0 :: rest => List.map (fun p => (p, p0)) rest
        end
    end.
Proof.
  induction ps as [|p ps IH]; intros seen.
  - cbn. destruct (first_with w k seen); reflexivity.
  - cbn [expected_pairs List.filter]. rewrite List.filter_app, IH.
    rewrite first_with_app. fold (inb p).
    destruct (inb p) eqn:Hp.
    + assert (Hk : file_digest w p = k) by (apply digest_eqb_eq; exact Hp).
      rewrite Hk.
      destruct (first_with w k seen) as [o|]; cbn [List.filter fst List.map List.app].
      * rewrite Hp. reflexivity.
      * reflexivity.
    + destruct (first_with w (file_digest w p) seen) as [o'|];
        cbn [List.filter fst List.app]; rewrite ?Hp;
        destruct (first_with w k seen); reflexivity.
Qed.

Lemma first_with_other d seen :
  digest_eqb d k = false ->
  first_with w d (List.filter (fun p => negb (inb p)) seen)
  = first_with w d seen.
Proof.
  intros Hd. unfold first_with.
  induction seen as [|x seen IH]; [reflexivity|].
  cbn [List.filter List.find]. destruct (inb x) eqn:Hx; cbn [negb List.find].
  - assert (Hxk : file_digest w x = k) by (apply digest_eqb_eq; exact Hx).
    assert (Hxd : has_digest w d x = false).
    { unfold has_digest. rewrite Hxk. apply digest_eqb_neq.
      apply digest_eqb_neq in Hd. congruence. }
    rewrite Hxd. exact IH.
  - destruct (has_digest w d x); [reflexivity|exact IH].
Qed.

(** The pairs of the other digests are those of a scan that never met a
    file of digest [k]. *)
Lemma expected_pairs_others ps : forall seen,
  List.filter (fun pr => negb (inb (fst pr))) (expected_pairs w seen ps)
  = expected_pairs w (List.filter (fun p => negb (inb p)) seen)
      (List.filter (fun p => negb (inb p)) ps).
Proof.
  induction ps as [|p ps IH]; intros seen; [reflexivity|].
  cbn [expected_pairs List.filter]. rewrite List.filter_app, IH.
  rewrite List.filter_app. cbn [List.filter].
  destruct (inb p) eqn:Hp; cbn [negb].
  - rewrite List.app_nil_r.
    destruct (first_with w (file_digest w p) seen);
      cbn [List.filter fst]; rewrite ?Hp; reflexivity.
  - cbn [expected_pairs]. rewrite first_with_other by exact Hp.
    destruct (first_with w (file_digest w p) seen);
      cbn [List.filter fst]; rewrite ?Hp; reflexivity.
Qed.

End Bucket.

Lemma filter_all {A} (f : A -> bool) l :
  List.filter (fun x => negb (f x)) l = [] -> List.filter f l = l.
Proof.
  induction l as [|x l IH]; [reflexivity|]. cbn [List.filter].
  destruct (f x); cbn [negb]; [intros H; f_equal; auto|discriminate].
Qed.

Lemma mem_In p ps : mem p ps = true <-> List.In p ps.
Proof.
  unfold mem. rewrite List.existsb_exists. split.
  - intros (x & Hx & He). apply str_eqb_eq in He. congruence.
  - intros H. exists p. split; [assumption|apply str_eqb_refl].
Qed.

Lemma reads_as_digest w content p :
  reads_as w content p = true ->
  file_digest w p = Some (sha1_hexdigest content).
Proof.
  unfold reads_as, file_digest. destruct (read_bytes w p); [discriminate|].
  intros H. apply bytes_eqb_eq in H. congruence.
Qed.

(** A scan reads and logs; it writes nothing. *)
Lemma scan_writes_nothing w dir :
  emits (fun ev => is_write ev = false) (scan w dir).
Proof. unfold scan, scan_directory, scan_file, compute_sha1. stepping. Qed.

Lemma utf8_encodable_app a b :
  utf8_encodable (a ++ b) = utf8_encodable a && utf8_encodable b.
Proof. apply List.forallb_app. Qed.

(** What [find_duplicate_transcripts] does once the directory is there
    and scanned. *)
Lemma find_duplicate_transcripts_report w hashes dups :
  path_exists w (input w dup_prompt) = true ->
  snd (scan w (input w dup_prompt)) = Done (hashes, dups) ->
  (dups = [] ->
   find_duplicate_transcripts w
   = (EInput dup_prompt
        :: trace (scan w (input w dup_prompt))
        ++ [EPrint [T (lit "No duplicate transcripts found.")]],
      Done tt))
  /\ (dups <> [] ->
      utf8_encodable (report_lines dups) = true ->
      find_duplicate_transcripts w
      = (EInput dup_prompt
           :: trace (scan w (input w dup_prompt))
           ++ [EWriteText (lit "duplicates.txt") (report_lines dups);
               EPrint [T (lit "Saved duplicate transcripts to duplicates.txt.")]],
         Done tt))
  /\ (dups <> [] ->
      utf8_encodable (report_lines dups) = false ->
      find_duplicate_transcripts w
      = (EInput dup_prompt
           :: trace (scan w (input w dup_prompt))
           ++ [EWritePartial (lit "duplicates.txt")],
         Raised UnicodeEncodeError)).
Proof.
  intros Hexists Hscan.
  unfold find_duplicate_transcripts. fold dup_prompt.
  rewrite bind_emit, Hexists. cbn [negb].
  rewrite (bind_done _ _ _ Hscan). cbn [fst snd]. split; [|split].
  - intros ->. reflexivity.
  - intros Hne Henc. destruct dups as [|pr dups]; [contradiction|].
    unfold write_text. rewrite Henc. reflexivity.
  - intros Hne Henc. destruct dups as [|pr dups]; [contradiction|].
    unfold write_text. rewrite Henc. reflexivity.
Qed.

(** C6, as the code has it: in a directory where every record file either
    holds exactly the bytes [content] or has a digest other than theirs,
    the scan writes nothing, and [find_duplicate_transcripts] then reports
    the pairs it found: none gives the message that there is none; when
    the report can be encoded, it is written to duplicates.txt and
    announced, and when it cannot, the write raises and leaves the file
    incomplete.  The pairs that mention one of the identical files are
    those of each identical file after the first with the first, in walk
    order: n identical files give n-1 pairs, all with the first-seen file
    as original.  When the directory holds just one more record file, these
    are all the pairs; so three identical files and one differing file give
    a report of exactly two pairs, both with the same original, neither
    about the fourth. *)
Theorem find_duplicates_identical (w : World) (content : list Byte.byte) :
  let dir := input w dup_prompt in
  path_exists w dir = true ->
  (forall p, List.In p (json_paths w dir) ->
             reads_as w content p = false ->
             file_digest w p <> Some (sha1_hexdigest content)) ->
  let identical := List.filter (reads_as w content) (json_paths w dir) in
  let pairs :=
    match identical with
    | [] => []
    | p0 :: rest => List.map (fun p => (p, p0)) rest
    end in
  let saved :=
    EPrint [T (lit "Saved duplicate transcripts to duplicates.txt.")] in
  exists dups,
    List.Forall (fun ev => is_write ev = false) (trace (scan w dir))
    /\ (dups = [] ->
        find_duplicate_transcripts w
        = (EInput dup_prompt :: trace (scan w dir)
             ++ [EPrint [T (lit "No duplicate transcripts found.")]],
           Done tt))
    /\ (dups <> [] ->
        utf8_encodable (report_lines dups) = true ->
        find_duplicate_transcripts w
        = (EInput dup_prompt :: trace (scan w dir)
             ++ [EWriteText (lit "duplicates.txt") (report_lines dups); saved],
           Done tt))
    /\ (dups <> [] ->
        utf8_encodable (report_lines dups) = false ->
        find_duplicate_transcripts w
        = (EInput dup_prompt :: trace (scan w dir)
             ++ [EWritePartial (lit "duplicates.txt")],
           Raised UnicodeEncodeError))
    /\ pairs_about identical dups = pairs
    /\ (List.length (json_paths w dir) = S (List.length identical) ->
        dups = pairs)
    /\ (List.length (json_paths w dir) = 4%nat ->
        List.length identical = 3%nat ->
        exists p0 p1 p2,
          identical = [p0; p1; p2] /\ dups = [(p1, p0); (p2, p0)]
          /\ (forall q, reads_as w content q = false ->
                        q <> p0 /\ q <> p1 /\ q <> p2)
          /\ (utf8_encodable (p0 ++ p1 ++ p2) = true ->
              find_duplicate_transcripts w
              = (EInput dup_prompt :: trace (scan w dir)
                   ++ [EWriteText (lit "duplicates.txt")
                         (lit "Duplicate: " ++ p1 ++ [10]
                          ++ lit "Original: " ++ p0 ++ [10; 10]
                          ++ lit "Duplicate: " ++ p2 ++ [10]
                          ++ lit "Original: " ++ p0 ++ [10; 10]);
                       saved],
                 Done tt))).
Proof.
  intros dir Hexists Hother identical pairs saved.
  destruct (scan_finds w dir) as [hashes Hscan].
  exists (expected_pairs w [] (json_paths w dir)).
  destruct (find_duplicate_transcripts_report w _ _ Hexists Hscan)
    as (Hnone & Hsome & Hfail).
  fold dir in Hnone, Hsome, Hfail. fold saved in Hsome.
  set (ps := json_paths w dir) in *.
  set (k := Some (sha1_hexdigest content)).
  assert (Hinb : forall p, List.In p ps ->
                   has_digest w k p = reads_as w content p).
  { intros p Hp. unfold has_digest.
    destruct (reads_as w content p) eqn:Hr.
    - apply digest_eqb_eq, reads_as_digest, Hr.
    - apply digest_eqb_neq, Hother; assumption. }
  assert (Hid : List.filter (has_digest w k) ps = identical).
  { apply List.filter_ext_in. exact Hinb. }
  assert (Hbucket :
    List.filter (fun pr => has_digest w k (fst pr))
      (expected_pairs w [] ps) = pairs).
  { rewrite expected_pairs_bucket. cbn [first_with List.find].
    rewrite Hid. reflexivity. }
  assert (Habout : pairs_about identical (expected_pairs w [] ps) = pairs).
  { rewrite <- Hbucket. unfold pairs_about. apply List.filter_ext_in.
    intros [d o] Hin. cbn [fst snd].
    apply expected_pairs_sound in Hin as (Hd & Ho & He). cbn [List.app] in Ho.
    assert (Hm : forall p, List.In p ps ->
                   mem p identical = has_digest w k p).
    { intros p Hp. rewrite (Hinb p Hp).
      destruct (reads_as w content p) eqn:Hr.
      - apply mem_In, List.filter_In. auto.
      - destruct (mem p identical) eqn:Hmem; [|reflexivity].
        apply mem_In, List.filter_In in Hmem as [_ Hmem]. congruence. }
    rewrite (Hm d Hd), (Hm o Ho). unfold has_digest. rewrite He.
    apply orb_diag. }
  assert (Hall : List.length ps = S (List.length identical) ->
                 expected_pairs w [] ps = pairs).
  { intros Hlen. rewrite <- Hbucket. symmetry. apply filter_all.
    rewrite (expected_pairs_others w k). cbn [List.filter].
    pose proof (List.filter_length (has_digest w k) ps) as Hsum.
    rewrite Hid in Hsum.
    destruct (List.filter (fun p => negb (has_digest w k p)) ps)
      as [|q [|q' l]] eqn:Hq; cbn [List.length] in Hsum; try lia.
    reflexivity. }
  split; [exact (scan_writes_nothing w dir)|].
  split; [exact Hnone|]. split; [exact Hsome|]. split; [exact Hfail|].
  split; [exact Habout|]. split; [exact Hall|].
  intros H4 H3. specialize (Hall ltac:(lia)). rewrite Hall in Hsome |- *.
  unfold pairs in Hsome |- *.
  assert (Hreads : forall p, List.In p identical -> reads_as w content p = true).
  { intros p Hp. apply List.filter_In in Hp. tauto. }
  destruct identical as [|p0 [|p1 [|p2 [|p3 l]]]]; try discriminate.
  exists p0, p1, p2. split; [reflexivity|]. split; [reflexivity|]. split.
  - intros q Hq.
    repeat split; intros ->; rewrite Hreads in Hq; try discriminate;
      cbn; tauto.
  - intros Henc. rewrite Hsome; [|discriminate|].
    + unfold report_lines. cbn [List.map List.concat fst snd].
      rewrite List.app_nil_r, <- !List.app_assoc. reflexivity.
    + rewrite !utf8_encodable_app in Henc.
      apply andb_prop in Henc as [H0 Henc]. apply andb_prop in Henc as [H1 H2].
      unfold report_lines. cbn [List.map List.concat fst snd].
      rewrite !utf8_encodable_app, H0, H1, H2. reflexivity.
Qed.

(** Three files of identical bytes and one of different bytes: the report
    that is written. *)
Lemma find_duplicates_identical_witness :
  find_duplicate_transcripts world_three_and_one
  = (EInput dup_prompt
       :: trace (scan world_three_and_one (lit "transcripts"))
       ++ [EWriteText (lit "duplicates.txt")
             (lit "Duplicate: transcripts/ch/b.json" ++ [10]
              ++ lit "Original: transcripts/ch/a.json" ++ [10; 10]
              ++ lit "Duplicate: transcripts/ch/d.json" ++ [10]
              ++ lit "Original: transcripts/ch/a.json" ++ [10; 10]);
           EPrint [T (lit "Saved duplicate transcripts to duplicates.txt.")]],
     Done tt).
Proof.
  destruct (find_duplicates_identical world_three_and_one [Byte.x7b; Byte.x7d]
              eq_refl)
    as (dups & _ & _ & _ & _ & _ & _ & H).
  - intros p Hin Hr. vm_compute in Hin.
    destruct Hin as [<-|[<-|[<-|[<-|[]]]]]; vm_compute in Hr |- *;
      congruence.
  - destruct H as (p0 & p1 & p2 & Hid & _ & _ & Hrun); [reflexivity..|].
    vm_compute in Hid. injection Hid as <- <- <-.
    exact (Hrun eq_refl).
Defined.

(** C6, as stated, fails: three identical files and a differing one do not
    always give a report.  When the name of a duplicate holds a byte that
    is not UTF-8, writing its path raises: duplicates.txt is left
    incomplete and the run ends with the exception. *)
Lemma find_duplicates_undecodable_name :
  ~ (forall (w : World) (content : list Byte.byte),
       path_exists w (input w dup_prompt) = true ->
       List.length (json_paths w (input w dup_prompt)) = 4%nat ->
       List.length
         (List.filter (reads_as w content) (json_paths w (input w dup_prompt)))
       = 3%nat ->
       (forall p, List.In p (json_paths w (input w dup_prompt)) ->
                  reads_as w content p = false ->
                  file_digest w p <> Some (sha1_hexdigest content)) ->
       exists report,
         List.In (EWriteText (lit "duplicates.txt") report)
           (trace (find_duplicate_transcripts w))).
Proof.
  intros H.
  destruct (H world_undecodable_name [Byte.x7b; Byte.x7d] eq_refl eq_refl
              eq_refl) as [report Hin].
  - intros p Hp Hr. vm_compute in Hp.
    destruct Hp as [<-|[<-|[<-|[<-|[]]]]]; vm_compute in Hr |- *;
      congruence.
  - vm_compute in Hin.
    repeat (destruct Hin as [Hin|Hin]; [discriminate Hin|]). exact Hin.
Qed.

(** C1 fails on the code.  A file whose digest cannot be computed is logged,
    and the walk goes on; but its digest is [None], which the scan files
    like any other: the first unreadable record file becomes the original of
    [None], and every later unreadable one is reported as its duplicate. *)
Theorem find_duplicates_pairs_unreadable (w : World) (dir : str) :
  exists hashes dups,
    snd (scan w dir) = Done (hashes, dups)
    /\ List.filter (fun pr => has_digest w None (fst pr)) dups
       = match List.filter (has_digest w None) (json_paths w dir) with
         | [] => []
         | p0 :: rest => List.map (fun p => (p, p0)) rest
         end.
Proof.
  destruct (scan_finds w dir) as [hashes Hscan].
  exists hashes, (expected_pairs w [] (json_paths w dir)).
  split; [exact Hscan|]. rewrite expected_pairs_bucket. reflexivity.
Qed.

(** Two record files that cannot be read, x.json and y.json: the report
    written to duplicates.txt gives y as a duplicate of x. *)
Example find_duplicates_two_unreadable :
  file_digest world_unreadable (lit "transcripts/ch/x.json") = None
  /\ file_digest world_unreadable (lit "transcripts/ch/y.json") = None
  /\ (exists hashes,
        snd (scan world_unreadable (lit "transcripts"))
        = Done (hashes,
                [(lit "transcripts/ch/y.json", lit "transcripts/ch/x.json")]))
  /\ List.In
       (EWriteText (lit "duplicates.txt")
          (lit "Duplicate: transcripts/ch/y.json" ++ [10]
           ++ lit "Original: transcripts/ch/x.json" ++ [10; 10]))
       (trace (find_duplicate_transcripts world_unreadable)).
Proof.
  split; [reflexivity|]. split; [reflexivity|]. split.
  - destruct (scan_finds world_unreadable (lit "transcripts")) as [h Hh].
    exists h. rewrite Hh. reflexivity.
  - vm_compute. tauto.
Qed.

(** ** Metadata and persistence: [fetch_video_metadata], [save_transcript] *)

(** Metadata resolution never raises: every failure ends as the empty map. *)
Lemma fetch_video_metadata_total w video_id :
  total (fetch_video_metadata w video_id).
Proof.
  unfold fetch_video_metadata. apply total_try.
  - stepping.
  - intros e. apply total_bind; [apply total_emit|]. intros _. apply total_ret.
Qed.

(** It calls the provider first. *)
Lemma fetch_video_metadata_calls w video_id :
  exists rest,
    trace (fetch_video_metadata w video_id) = EVideosList video_id :: rest.
Proof.
  unfold fetch_video_metadata, try, trace. rewrite bind_emit. cbn [fst snd].
  match goal with |- context [match ?o with _ => _ end] => destruct o end;
    cbn [fst List.app]; eexists; reflexivity.
Qed.

Lemma fetch_video_metadata_events w video_id :
  emits (fun ev => is_save_event ev = false) (fetch_video_metadata w video_id).
Proof. unfold fetch_video_metadata. stepping. Qed.

Lemma parse_time_format_number x :
  parse_time_format (json_of_number x) = inr (timestamp x).
Proof.
  unfold timestamp, parse_time_format.
  replace (as_number (json_of_number x)) with (Some x) by (destruct x; reflexivity).
  reflexivity.
Qed.

Lemma transcript_items transcript :
  map_M transcript_item transcript = ret (List.map record_item transcript).
Proof.
  induction transcript as [|e l IH]; [reflexivity|].
  cbn [map_M List.map]. unfold transcript_item at 1.
  rewrite parse_time_format_number, bind_lift_ok, bind_ret, IH, bind_ret.
  reflexivity.
Qed.

(** C10, as the code has it: for a channel name and a title that are
    strings and a record that UTF-8 can encode, when the metadata
    re-resolution of [save_transcript] comes back empty the record is
    written all the same, after the directory is made and the resolution
    attempted: its metadata holds "Unknown" as duration and the empty list
    as tags, and the caller's video_url, channel_name, video_title and
    publish_date unchanged.  A record that UTF-8 cannot encode is not
    written whole: after the same steps the write raises
    [UnicodeEncodeError] and leaves the file incomplete. *)
Theorem save_transcript_unknown_metadata (w : World) (video_url : str)
    (transcript : list transcript_entry) (channel_name video_title : str)
    (publish_date : json) :
  snd (fetch_video_metadata w (url_video_id video_url)) = Done [] ->
  let channel_dir :=
    path_join (lit "transcripts")
      (sanitize_filename (unicode_alnum w) channel_name
         TRANSCRIPT_FILENAME_LENGTH) in
  let filename :=
    path_join channel_dir
      (sanitize_filename (unicode_alnum w) video_title
         TRANSCRIPT_FILENAME_LENGTH ++ lit ".json") in
  let record :=
    JDict [(lit "metadata",
            JDict [(lit "video_url", JStr video_url);
                   (lit "channel_name", JStr channel_name);
                   (lit "video_title", JStr video_title);
                   (lit "publish_date", publish_date);
                   (lit "duration", JStr (lit "Unknown"));
                   (lit "tags", JList [])]);
           (lit "transcript", JList (List.map record_item transcript))] in
  let run :=
    save_transcript w video_url transcript (JStr channel_name)
      (JStr video_title) publish_date in
  (json_encodable record = true ->
   run
   = (EMakedirs channel_dir
        :: trace (fetch_video_metadata w (url_video_id video_url))
        ++ [EWriteJson filename record],
      Done tt))
  /\ (json_encodable record = false ->
      run
      = (EMakedirs channel_dir
           :: trace (fetch_video_metadata w (url_video_id video_url))
           ++ [EWritePartial filename],
         Raised UnicodeEncodeError)).
Proof.
  intros Hmeta channel_dir filename record run.
  assert (Hrun : run
                 = (EMakedirs channel_dir
                      :: trace (fetch_video_metadata w (url_video_id video_url))
                      ++ fst (write_json filename record),
                    snd (write_json filename record))).
  { unfold run, save_transcript. cbn [sanitize_filename_arg].
    rewrite !bind_lift_ok, bind_emit. fold channel_dir.
    fold (url_video_id video_url).
    rewrite (bind_done _ _ _ Hmeta), transcript_items, bind_ret.
    reflexivity. }
  rewrite Hrun. unfold write_json.
  split; intros ->; reflexivity.
Qed.

(** A save while the metadata provider is unreachable. *)
Lemma save_transcript_unknown_metadata_witness :
  exists t,
    fst (save_transcript empty_world sample_url
           [{| text := lit "hello  (world)"; start := NFloat (3723 # 2) |}]
           (JStr (lit "Rocq")) (JStr (lit "A tour")) (JStr (lit "2024-01-02")))
    = t ++ [EWriteJson (lit "transcripts/Rocq/A tour.json")
              (JDict [(lit "metadata",
                       JDict [(lit "video_url", JStr sample_url);
                              (lit "channel_name", JStr (lit "Rocq"));
                              (lit "video_title", JStr (lit "A tour"));
                              (lit "publish_date", JStr (lit "2024-01-02"));
                              (lit "duration", JStr (lit "Unknown"));
                              (lit "tags", JList [])]);
                      (lit "transcript",
                       JList [JDict [(lit "text", JStr (lit "hello world"));
                                     (lit "at", JStr (lit "31:01"))]])])].
Proof.
  rewrite (proj1 (save_transcript_unknown_metadata empty_world sample_url
                    [{| text := lit "hello  (world)";
                        start := NFloat (3723 # 2) |}]
                    (lit "Rocq") (lit "A tour") (JStr (lit "2024-01-02"))
                    eq_refl)
             eq_refl).
  cbn [fst]. eexists (_ :: _). reflexivity.
Defined.

(** C10, as stated, fails: not every call writes the record when the
    re-resolution comes back empty.  A transcript text that holds the lone
    surrogate U+D83D, which [sanitize_text] keeps, cannot be encoded: the
    save raises and leaves the file incomplete. *)
Lemma save_transcript_surrogate_not_written :
  ~ (forall (w : World) (video_url : str) (transcript : list transcript_entry)
            (channel_name video_title : str) (publish_date : json),
       snd (fetch_video_metadata w (url_video_id video_url)) = Done [] ->
       exists path record,
         List.In (EWriteJson path record)
           (trace (save_transcript w video_url transcript (JStr channel_name)
                     (JStr video_title) publish_date))).
Proof.
  intros H.
  destruct (H empty_world sample_url
              [{| text := [55357]; start := NInt 0 |}]
              (lit "Rocq") (lit "A tour") (JStr (lit "2024-01-02")) eq_refl)
    as (path & record & Hin).
  vm_compute in Hin.
  repeat (destruct Hin as [Hin|Hin]; [discriminate Hin|]). exact Hin.
Qed.

(** ** Single video: [fetch_single_video] *)

Lemma write_json_halts path data : halts (write_json path data).
Proof. unfold write_json. stepping. Qed.

Lemma save_transcript_halts w url transcript channel title date :
  halts (save_transcript w url transcript channel title date).
Proof.
  unfold save_transcript, write_json.
  stepping;
    first [ apply total_halts, fetch_video_metadata_total
          | rewrite transcript_items; apply halts_ret ].
Qed.

Lemma fetch_and_save_total w url vid metadata :
  total (fetch_and_save w url vid metadata).
Proof.
  unfold fetch_and_save. destruct (negb (truthy (JDict metadata)));
    [apply total_emit|].
  apply total_try.
  - stepping;
      first [ apply save_transcript_halts
            | apply write_json_halts
            | apply total_halts, fetch_video_metadata_total
            | rewrite transcript_items; apply halts_ret ].
  - intros e. destruct e; apply total_emit.
Qed.

(** With transcripts disabled, or none found, nothing is saved and one
    message is shown, after the transcript was asked for. *)
Lemma fetch_and_save_refused w url vid metadata e msg :
  metadata <> [] ->
  get_transcript w vid = inl e ->
  (e = TranscriptsDisabled /\ msg = msg_transcripts_disabled
   \/ e = NoTranscriptFound /\ msg = msg_no_transcript_found) ->
  fetch_and_save w url vid metadata
  = ([EGetTranscript vid; EPrint msg], Done tt).
Proof.
  intros Hmd Hget He. unfold fetch_and_save.
  destruct metadata as [|kv metadata]; [contradiction|]. cbn [truthy negb].
  rewrite Hget. destruct He as [[-> ->]|[-> ->]]; reflexivity.
Qed.

Lemma fetch_and_save_events w url vid metadata e :
  get_transcript w vid = inl e ->
  emits (fun ev => is_save_event ev = false) (fetch_and_save w url vid metadata).
Proof.
  intros Hget. unfold fetch_and_save. rewrite Hget.
  destruct (negb (truthy (JDict metadata))); [stepping|].
  apply emits_try; [stepping|]. intros e'. destruct e'; stepping.
Qed.

(** C7: when the transcript provider raises the disabled signal for the
    video, no event of [fetch_single_video] is one of [save_transcript]
    (no directory made, no record written); once metadata is at hand the
    run asks for the transcript and prints the disabled message, where a
    world without any transcript prints the not-found message, and the two
    messages differ. *)
Theorem disabled_transcripts_never_saved (w w' : World) (video_url vid : str)
    (supplied : option dict) (metadata : dict) :
  search_video_id video_url = Some vid ->
  get_transcript w vid = inl TranscriptsDisabled ->
  get_transcript w' vid = inl NoTranscriptFound ->
  (forall ev,
     List.In ev (trace (fetch_single_video w (Some video_url) supplied)) ->
     is_save_event ev = false)
  /\ (metadata <> [] ->
      fetch_and_save w video_url vid metadata
      = ([EGetTranscript vid; EPrint msg_transcripts_disabled], Done tt)
      /\ fetch_and_save w' video_url vid metadata
         = ([EGetTranscript vid; EPrint msg_no_transcript_found], Done tt))
  /\ msg_transcripts_disabled <> msg_no_transcript_found.
Proof.
  intros Hid Hw Hw'. split; [|split].
  - apply List.Forall_forall.
    change (emits (fun ev => is_save_event ev = false)
              (fetch_single_video w (Some video_url) supplied)).
    unfold fetch_single_video. rewrite bind_ret, Hid.
    apply emits_bind.
    + stepping; apply fetch_video_metadata_events.
    + intros md. eapply fetch_and_save_events, Hw.
  - intros Hmd. split; eapply fetch_and_save_refused; eauto.
  - discriminate.
Qed.

(** A video whose owner disabled transcripts, with valid metadata supplied. *)
Lemma disabled_transcripts_never_saved_witness :
  fetch_single_video world_disabled (Some sample_url) (Some sample_metadata)
  = ([EPrint [T (lit "Using provided metadata for video ID ");
              T (lit "dQw4w9WgXcQ")];
      EGetTranscript (lit "dQw4w9WgXcQ");
      EPrint msg_transcripts_disabled],
     Done tt)
  /\ fetch_and_save world_no_transcript sample_url (lit "dQw4w9WgXcQ")
       sample_metadata
     = ([EGetTranscript (lit "dQw4w9WgXcQ"); EPrint msg_no_transcript_found],
        Done tt).
Proof.
  destruct (disabled_transcripts_never_saved world_disabled world_no_transcript
              sample_url (lit "dQw4w9WgXcQ") (Some sample_metadata)
              sample_metadata)
    as (_ & H & _); [reflexivity..|].
  destruct H as [_ H]; [discriminate|]. split; [reflexivity|exact H].
Defined.

Lemma not_empty_value v :
  negb (is_empty_value v) = true <-> v <> JNull /\ v <> JStr [] /\ v <> JList [].
Proof.
  destruct v as [| | | |[|c s]|[|x l]|]; cbn [is_empty_value negb];
    split; try discriminate; try (intros (? & ? & ?); congruence);
    intros _; repeat split; discriminate.
Qed.

Lemma is_metadata_valid_iff metadata :
  is_metadata_valid metadata = true
  <-> forall key, List.In key required_keys ->
        exists v, dict_lookup key metadata = Some v
                  /\ v <> JNull /\ v <> JStr [] /\ v <> JList [].
Proof.
  unfold is_metadata_valid. rewrite List.forallb_forall.
  split; intros H key Hkey; specialize (H key Hkey).
  - apply andb_prop in H as [Hhas Hval]. unfold dict_has, dict_get in *.
    destruct (dict_lookup key metadata) as [v|]; [|discriminate].
    exists v. split; [reflexivity|]. apply not_empty_value, Hval.
  - destruct H as (v & Hv & Hne). unfold dict_has, dict_get. rewrite Hv.
    apply not_empty_value in Hne. rewrite Hne. reflexivity.
Qed.

(** C5: caller-supplied metadata is valid exactly when each of the five
    required keys is present with a value other than None, the empty
    string and the empty list (so a map without tags is not).  Valid
    metadata is used as it is: the run announces it and goes on to the
    transcript with that very map, without asking the provider for
    metadata.  Otherwise the map is dropped: the provider is asked, and the
    run goes on with what it answered. *)
Theorem supplied_metadata_used_iff_valid (w : World) (video_url vid : str)
    (metadata : dict) :
  search_video_id video_url = Some vid ->
  (is_metadata_valid metadata = true
   <-> forall key, List.In key required_keys ->
         exists v, dict_lookup key metadata = Some v
                   /\ v <> JNull /\ v <> JStr [] /\ v <> JList [])
  /\ (dict_lookup (lit "tags") metadata = None ->
      is_metadata_valid metadata = false)
  /\ (is_metadata_valid metadata = true ->
      fetch_single_video w (Some video_url) (Some metadata)
      = bind (emit (EPrint [T (lit "Using provided metadata for video ID ");
                            T vid]))
          (fun _ => fetch_and_save w video_url vid metadata)
      /\ exists rest,
           trace (fetch_and_save w video_url vid metadata)
           = EGetTranscript vid :: rest)
  /\ (is_metadata_valid metadata = false ->
      exists fetched announce rest,
        snd (fetch_video_metadata w vid) = Done fetched
        /\ trace (fetch_video_metadata w vid) = EVideosList vid :: rest
        /\ trace (fetch_single_video w (Some video_url) (Some metadata))
           = announce ++ trace (fetch_video_metadata w vid)
             ++ trace (fetch_and_save w video_url vid fetched)
        /\ List.Forall (fun ev => exists msg, ev = EPrint msg) announce).
Proof.
  intros Hid. split; [apply is_metadata_valid_iff|]. split; [|split].
  - intros Htags. destruct (is_metadata_valid metadata) eqn:Hv; [|reflexivity].
    pose proof (proj1 (is_metadata_valid_iff metadata) Hv) as Hall.
    destruct (Hall (lit "tags")) as (v & Hv' & _); [|congruence].
    cbn. tauto.
  - intros Hvalid.
    assert (Hne : truthy (JDict metadata) = true).
    { pose proof (proj1 (is_metadata_valid_iff metadata) Hvalid) as Hall.
      destruct (Hall (lit "title")) as (v & Hv & _); [cbn; tauto|].
      destruct metadata; [discriminate|reflexivity]. }
    split.
    + unfold fetch_single_video. rewrite bind_ret, Hid, Hne, Hvalid.
      rewrite bind_assoc. f_equal.
    + unfold fetch_and_save. rewrite Hne. cbn [negb].
      unfold try, trace. rewrite bind_emit. cbn [fst snd].
      match goal with |- context [match ?o with _ => _ end] => destruct o end;
        cbn [fst List.app]; eexists; reflexivity.
  - intros Hinvalid.
    destruct (fetch_video_metadata_total w vid) as [fetched Hf].
    destruct (fetch_video_metadata_calls w vid) as [rest Hrest].
    exists fetched.
    unfold fetch_single_video. rewrite bind_ret, Hid, Hinvalid.
    destruct (truthy (JDict metadata)).
    + eexists [_], rest. repeat split; [assumption..| |].
      * rewrite bind_assoc, bind_emit. unfold trace. cbn [fst].
        rewrite (bind_done _ _ _ Hf). reflexivity.
      * repeat constructor. eexists. reflexivity.
    + exists [], rest. repeat split; [assumption..| |constructor].
      unfold trace. rewrite (bind_done _ _ _ Hf). reflexivity.
Qed.

(** Metadata without tags, while the provider is unreachable: the provider
    is asked all the same. *)
Lemma supplied_metadata_used_iff_valid_witness :
  is_metadata_valid (List.removelast sample_metadata) = false
  /\ exists announce rest,
       trace (fetch_single_video empty_world (Some sample_url)
                (Some (List.removelast sample_metadata)))
       = announce ++ EVideosList (lit "dQw4w9WgXcQ") :: rest.
Proof.
  destruct (supplied_metadata_used_iff_valid empty_world sample_url
              (lit "dQw4w9WgXcQ") (List.removelast sample_metadata) eq_refl)
    as (_ & Htags & _ & Hinvalid).
  split; [apply Htags; reflexivity|].
  destruct (Hinvalid (Htags eq_refl))
    as (fetched & announce & rest & _ & Hcall & Htrace & _).
  exists announce. eexists. etransitivity; [exact Htrace|].
  rewrite Hcall. reflexivity.
Defined.

(** ** File-driven batch: [process_file_with_video_urls] *)

Lemma fetch_single_video_total w url supplied :
  total (fetch_single_video w (Some url) supplied).
Proof.
  unfold fetch_single_video. rewrite bind_ret.
  destruct (search_video_id url) as [vid|]; [|apply total_emit].
  apply total_bind; [|intros md; apply fetch_and_save_total].
  destruct supplied as [d|]; [|apply fetch_video_metadata_total].
  destruct (truthy (JDict d)); [|apply fetch_video_metadata_total].
  destruct (is_metadata_valid d);
    (apply total_bind; [apply total_emit|intros _]);
    [apply total_ret|apply fetch_video_metadata_total].
Qed.

(** The loop over the URLs fetches each of them in turn. *)
Lemma fetch_all w urls :
  for_each urls (fun _ url => fetch_single_video w (Some url) None) tt
  = (fetches w urls, Done tt).
Proof.
  unfold fetches. induction urls as [|u urls IH]; [reflexivity|].
  cbn [for_each List.flat_map].
  destruct (fetch_single_video_total w u None) as [[] Hu].
  rewrite (bind_done _ _ _ Hu), IH. reflexivity.
Qed.

Lemma urls_of_rows_nonempty rows :
  List.Forall (fun row => row <> []) rows ->
  urls_of_rows rows
  = inr (List.map (fun row => watch_url_prefix ++ strip (List.hd [] row)) rows).
Proof.
  induction 1 as [|row rows Hrow _ IH]; [reflexivity|].
  cbn [urls_of_rows List.map]. rewrite IH.
  destruct row; [contradiction|reflexivity].
Qed.

Lemma urls_of_rows_empty_row rows :
  List.In [] rows -> urls_of_rows rows = inl IndexError.
Proof.
  induction rows as [|row rows IH]; intros H; [destruct H|].
  cbn [urls_of_rows]. destruct row as [|cell row]; [reflexivity|].
  destruct H as [H|H]; [discriminate|].
  cbn [url_of_row]. rewrite (IH H). reflexivity.
Qed.

(** C2 fails on the code.  For a text input every line yields its stripped
    content unchanged when that starts with "https://", and the watch-URL
    prefix followed by it otherwise.  For a CSV input the first row is
    skipped, but every remaining row yields the prefix followed by its
    stripped first cell whatever the cell holds: a full URL does not pass
    through, the prefix is put before it too.  Each URL is fetched in
    turn; a CSV row without any cell ends the batch before the first
    fetch. *)
Theorem batch_file_urls (w : World) :
  path_exists w (batch_path w) = true ->
  (forall header rows,
     endswith (batch_path w) (lit ".csv") = true ->
     csv_reader w (batch_path w) = inr (header :: rows) ->
     (List.Forall (fun row => row <> []) rows ->
      process_file_with_video_urls w
      = (EInput batch_prompt :: EOpenRead (batch_path w)
           :: fetches w
                (List.map
                   (fun row => watch_url_prefix ++ strip (List.hd [] row))
                   rows),
         Done tt))
     /\ (List.In [] rows ->
         process_file_with_video_urls w
         = ([EInput batch_prompt; EOpenRead (batch_path w);
             EPrint [T (lit "An error occurred while processing the file: ");
                     E IndexError]],
            Done tt)))
  /\ (forall lines,
        endswith (batch_path w) (lit ".csv") = false ->
        readlines w (batch_path w) = inr lines ->
        process_file_with_video_urls w
        = (EInput batch_prompt :: EOpenRead (batch_path w)
             :: fetches w (List.map url_of_line lines),
           Done tt))
  /\ (forall line,
        (startswith (strip line) (lit "https://") = true ->
         url_of_line line = strip line)
        /\ (startswith (strip line) (lit "https://") = false ->
            url_of_line line = watch_url_prefix ++ strip line)).
Proof.
  intros Hexists. split; [|split].
  - intros header rows Hcsv Hread. split.
    + intros Hrows.
      unfold process_file_with_video_urls. fold batch_prompt.
      fold (batch_path w).
      rewrite bind_emit, Hexists, Hcsv. cbn [negb].
      rewrite Hread, bind_lift_ok. cbn [urls_of_csv].
      rewrite (urls_of_rows_nonempty rows Hrows), bind_emit, bind_lift_ok.
      rewrite fetch_all. reflexivity.
    + intros Hempty.
      unfold process_file_with_video_urls. fold batch_prompt.
      fold (batch_path w).
      rewrite bind_emit, Hexists, Hcsv. cbn [negb].
      rewrite Hread, bind_lift_ok. cbn [urls_of_csv].
      rewrite (urls_of_rows_empty_row rows Hempty). reflexivity.
  - intros lines Htext Hread.
    unfold process_file_with_video_urls. fold batch_prompt. fold (batch_path w).
    rewrite bind_emit, Hexists, Htext. cbn [negb].
    rewrite Hread, bind_lift_ok, bind_emit, bind_ret.
    unfold urls_of_text. rewrite fetch_all. reflexivity.
  - intros line. unfold url_of_line. split; intros ->; reflexivity.
Qed.

(** A CSV file with a header and one row, whose first cell is the full URL
    of the video: what is fetched is the prefix followed by that URL,
    where a line of a text file with the same URL gives the URL itself. *)
Lemma batch_file_urls_witness :
  process_file_with_video_urls world_csv_url
  = (EInput batch_prompt :: EOpenRead (lit "videos.csv")
       :: fetches world_csv_url
            [lit "https://www.youtube.com/watch?v=https://www.youtube.com/watch?v=dQw4w9WgXcQ"],
     Done tt)
  /\ url_of_line sample_url = sample_url.
Proof.
  destruct (batch_file_urls world_csv_url eq_refl) as (H & _ & Hline).
  split.
  - exact (proj1 (H _ [[sample_url; lit "A tour"]] eq_refl eq_refl)
             ltac:(repeat constructor; discriminate)).
  - exact (proj1 (Hline sample_url) eq_refl).
Defined.

(** The claim of C2 at that row: a CSV row whose first cell is already a
    full URL does not pass through unchanged. *)
Lemma csv_full_url_not_unchanged :
  ~ (forall (header : list str) (url : str),
       startswith url (lit "https://") = true ->
       urls_of_csv [header; [url]] = inr [url]).
Proof.
  intros H. specialize (H [lit "Video ID"] sample_url eq_refl).
  vm_compute in H. discriminate.
Qed.

(** ** Channel enumeration: the pages of [fetch_channel_videos] *)

Lemma get_done_inv v key default x :
  get v key default = inr x -> exists d, v = JDict d /\ x = dict_get d key default.
Proof. destruct v; cbn [get]; try discriminate. intros [= <-]. eauto. Qed.

Lemma carries_entry_video_id item_ :
  carries_video_id item_ = truthy (entry_video_id item_).
Proof.
  unfold carries_video_id, entry_video_id.
  destruct item_ as [| | | | | |d]; try reflexivity.
  destruct (dict_get d (lit "snippet") (JDict [])) as [| | | | | |sn];
    try reflexivity.
  destruct (dict_get sn (lit "resourceId") (JDict [])) as [| | | | | |r];
    reflexivity.
Qed.

(** An entry adds the identifier it carries, or nothing when it carries
    none. *)
Lemma collect_video_id_exact acc item_ ids :
  snd (collect_video_id acc item_) = Done ids ->
  ids = acc ++ page_video_ids [item_].
Proof.
  unfold collect_video_id. intros H.
  apply bind_done_inv in H as (snippet & H1 & H).
  apply bind_done_inv in H as (resource_id & H2 & H).
  apply bind_done_inv in H as (video_id & H3 & H).
  apply lift_done_inv, get_done_inv in H1 as (d & -> & ->).
  apply lift_done_inv, get_done_inv in H2 as (d2 & Hd2 & ->).
  apply lift_done_inv, get_done_inv in H3 as (d3 & Hd3 & ->).
  unfold page_video_ids. cbn [List.filter].
  rewrite carries_entry_video_id. unfold entry_video_id. rewrite Hd2, Hd3.
  destruct (truthy (dict_get d3 (lit "videoId") JNull)).
  - apply ret_done_inv in H. subst ids. cbn [List.map].
    unfold entry_video_id. rewrite Hd2, Hd3. reflexivity.
  - rewrite bind_emit in H. cbn [snd] in H. apply ret_done_inv in H.
    subst ids. cbn [List.map]. rewrite List.app_nil_r. reflexivity.
Qed.

Lemma page_video_ids_cons item_ items :
  page_video_ids (item_ :: items)
  = page_video_ids [item_] ++ page_video_ids items.
Proof.
  unfold page_video_ids. cbn [List.filter].
  destruct (carries_video_id item_); reflexivity.
Qed.

Lemma collect_video_ids_exact items : forall acc ids,
  snd (for_each items collect_video_id acc) = Done ids ->
  ids = acc ++ page_video_ids items.
Proof.
  induction items as [|x items IH]; intros acc ids H; cbn [for_each] in H.
  - apply ret_done_inv in H. subst ids. symmetry. apply List.app_nil_r.
  - apply bind_done_inv in H as (mid & Hx & H).
    apply collect_video_id_exact in Hx. subst mid.
    apply IH in H. subst ids.
    rewrite (page_video_ids_cons x items), List.app_assoc. reflexivity.
Qed.

(** An entry without an identifier is passed over with a message. *)
Lemma collect_video_id_skip acc item_ ids :
  snd (collect_video_id acc item_) = Done ids ->
  carries_video_id item_ = false ->
  trace (collect_video_id acc item_) = [skip_message item_].
Proof.
  unfold collect_video_id. intros H Hcarries.
  pose proof H as H0.
  apply bind_done_inv in H0 as (snippet & H1 & H0).
  apply bind_done_inv in H0 as (resource_id & H2 & H0).
  apply bind_done_inv in H0 as (video_id & H3 & _).
  apply lift_done_inv in H1, H2, H3.
  rewrite H1, bind_lift_ok, H2, bind_lift_ok, H3, bind_lift_ok.
  apply get_done_inv in H1 as (d & -> & ->).
  apply get_done_inv in H2 as (d2 & Hd2 & ->).
  apply get_done_inv in H3 as (d3 & Hd3 & ->).
  unfold carries_video_id in Hcarries. rewrite Hd2, Hd3 in Hcarries.
  rewrite Hcarries. reflexivity.
Qed.

Lemma collect_video_ids_skips items : forall acc ids item_,
  snd (for_each items collect_video_id acc) = Done ids ->
  List.In item_ items ->
  carries_video_id item_ = false ->
  List.In (skip_message item_) (trace (for_each items collect_video_id acc)).
Proof.
  induction items as [|x items IH]; intros acc ids item_ H Hin Hc;
    [destruct Hin|].
  cbn [for_each] in H |- *.
  apply bind_done_inv in H as (mid & Hx & H).
  destruct Hin as [->|Hin].
  - apply In_trace_bind_l. rewrite (collect_video_id_skip _ _ _ Hx Hc).
    left. reflexivity.
  - eapply In_trace_bind_r; [exact Hx|]. eapply IH; eassumption.
Qed.

(** Parsing a duration never raises: a failure is logged and gives zero. *)
Lemma parse_iso8601_duration_result w raw :
  snd (parse_iso8601_duration w raw)
  = Done match isodate_parse_duration w raw with
         | inr q => py_int (NFloat q)
         | inl _ => 0%Z
         end.
Proof.
  unfold parse_iso8601_duration.
  destruct (isodate_parse_duration w raw); reflexivity.
Qed.

(** A video of the metadata response adds one row. *)
Lemma append_video_row_spec w acc video rows :
  snd (append_video_row w acc video) = Done rows ->
  exists row, rows = acc ++ [row] /\ zero_when_unparsed w video row.
Proof.
  unfold append_video_row. intros H.
  apply bind_done_inv in H as (snippet & H1 & H).
  apply bind_done_inv in H as (content_details & H2 & H).
  apply bind_done_inv in H as (raw & H3 & H).
  rewrite (snd_bind_done _ _ _ (parse_iso8601_duration_result w raw)) in H.
  apply bind_done_inv in H as (formatted & H4 & H).
  apply bind_done_inv in H as (id & _ & H).
  apply bind_done_inv in H as (title & _ & H).
  apply bind_done_inv in H as (tags & _ & H).
  apply bind_done_inv in H as (channel_title & _ & H).
  apply bind_done_inv in H as (published_at & _ & H).
  apply ret_done_inv in H. eexists. split; [symmetry; exact H|].
  apply lift_done_inv, get_done_inv in H1 as (d & -> & _).
  apply lift_done_inv, get_done_inv in H2 as (d2 & Hd2 & ->).
  injection Hd2 as <-.
  apply lift_done_inv, get_done_inv in H3 as (d3 & Hd3 & ->).
  apply lift_done_inv in H4.
  intros e He. unfold raw_duration in He. rewrite Hd3 in He.
  rewrite He in H4. unfold duration_column. cbn [List.nth].
  vm_compute in H4. injection H4 as <-. reflexivity.
Qed.

Lemma append_video_rows_spec w videos : forall acc rows,
  snd (for_each videos (append_video_row w) acc) = Done rows ->
  exists new,
    rows = acc ++ new /\ List.Forall2 (zero_when_unparsed w) videos new.
Proof.
  induction videos as [|v videos IH]; intros acc rows H; cbn [for_each] in H.
  - apply ret_done_inv in H. subst rows. exists []. rewrite List.app_nil_r.
    split; [reflexivity|constructor].
  - apply bind_done_inv in H as (mid & Hv & H).
    apply append_video_row_spec in Hv as (row & -> & Hrow).
    apply IH in H as (new & -> & Hnew).
    exists (row :: new). rewrite <- List.app_assoc. split; [reflexivity|].
    constructor; assumption.
Qed.

Lemma filter_none {A} (f : A -> bool) l :
  List.Forall (fun x => f x = false) l -> List.filter f l = [].
Proof.
  induction 1 as [|x l Hx _ IH]; [reflexivity|].
  cbn [List.filter]. rewrite Hx. exact IH.
Qed.

(** Neither inner loop of a page asks for metadata. *)
Lemma collect_video_ids_requests items acc :
  List.filter is_videos_request (trace (for_each items collect_video_id acc))
  = [].
Proof.
  apply filter_none.
  change (emits (fun ev => is_videos_request ev = false)
            (for_each items collect_video_id acc)).
  unfold collect_video_id. stepping.
Qed.

Lemma append_video_rows_requests w videos acc :
  List.filter is_videos_request
    (trace (for_each videos (append_video_row w) acc))
  = [].
Proof.
  apply filter_none.
  change (emits (fun ev => is_videos_request ev = false)
            (for_each videos (append_video_row w) acc)).
  unfold append_video_row, parse_iso8601_duration. stepping.
Qed.

(** What one turn of the loop gives, when it ends normally: the
    identifiers are those of the page, and they are asked for in one
    request, or in none when there is none. *)
Lemma fetch_page_spec w pid token page acc videos token' :
  playlist_items_list w pid token = inr page ->
  snd (fetch_page w pid token acc) = Done (videos, token') ->
  token' = dict_get page (lit "nextPageToken") JNull
  /\ exists items,
       iterate (dict_get page (lit "items") (JList [])) = inr items
       /\ (forall item_,
             List.In item_ items -> carries_video_id item_ = false ->
             List.In (skip_message item_) (trace (fetch_page w pid token acc)))
       /\ (page_video_ids items = [] ->
           videos = acc
           /\ List.filter is_videos_request
                (trace (fetch_page w pid token acc)) = [])
       /\ (page_video_ids items <> [] ->
           exists joined response listed new,
             join_ids (page_video_ids items) = inr joined
             /\ List.filter is_videos_request
                  (trace (fetch_page w pid token acc))
                = [EVideosList joined]
             /\ videos_list w joined = inr response
             /\ iterate (dict_get response (lit "items") (JList []))
                = inr listed
             /\ videos = acc ++ new
             /\ List.Forall2 (zero_when_unparsed w) listed new).
Proof.
  intros Hpage H. unfold fetch_page in H |- *.
  rewrite bind_emit in H. cbn [snd] in H. rewrite Hpage, bind_lift_ok in H.
  apply bind_done_inv in H as (items & Hitems & H).
  apply bind_done_inv in H as (ids & Hids & H).
  apply bind_done_inv in H as (vs & Hvs & H).
  apply ret_done_inv in H. injection H as -> <-.
  split; [reflexivity|]. exists items.
  apply lift_done_inv in Hitems.
  assert (Hskips : forall item_,
            List.In item_ items -> carries_video_id item_ = false ->
            List.In (skip_message item_)
              (trace (for_each items collect_video_id []))).
  { intros item_ Hin Hc. eapply collect_video_ids_skips; eassumption. }
  pose proof (collect_video_ids_exact _ _ _ Hids) as Hexact.
  cbn [List.app] in Hexact. subst ids.
  rewrite bind_emit, Hpage, bind_lift_ok, Hitems, bind_lift_ok.
  rewrite (bind_done _ _ _ Hids).
  split; [reflexivity|]. split; [|split].
  - intros item_ Hin Hc. right. unfold trace. cbn [fst].
    apply List.in_app_iff. left. apply Hskips; assumption.
  - intros Hnone. rewrite Hnone in Hvs |- *. cbn [truthy] in Hvs |- *.
    apply ret_done_inv in Hvs. split; [congruence|].
    rewrite bind_ret. unfold trace. cbn [fst List.filter is_videos_request].
    rewrite List.app_nil_r. exact (collect_video_ids_requests items []).
  - intros Hne.
    destruct (page_video_ids items) as [|i ids] eqn:Hpv; [contradiction|].
    cbn [truthy] in Hvs |- *.
    apply bind_done_inv in Hvs as (joined & Hj & Hvs).
    rewrite bind_emit in Hvs. cbn [snd] in Hvs.
    apply bind_done_inv in Hvs as (response & Hr & Hvs).
    apply bind_done_inv in Hvs as (listed & Hl & Hvs).
    apply lift_done_inv in Hj, Hr, Hl.
    rewrite Hj, bind_lift_ok, bind_emit, Hr, bind_lift_ok, Hl, bind_lift_ok.
    pose proof (append_video_rows_spec _ _ _ _ Hvs) as (rows & -> & Hrows).
    exists joined, response, listed, rows.
    split; [reflexivity|]. split; [|auto].
    unfold bind at 1. cbn [fst snd]. rewrite Hvs.
    unfold trace. cbn [fst List.filter is_videos_request ret].
    pose proof (collect_video_ids_requests items []) as Hc.
    pose proof (append_video_rows_requests w listed acc) as Ha.
    unfold trace in Hc, Ha.
    rewrite List.app_nil_r, List.filter_app, Hc.
    cbn [List.app List.filter is_videos_request]. rewrite Ha. reflexivity.
Qed.

Lemma parse_iso8601_duration_events w raw :
  emits (fun ev => is_page_request ev = false) (parse_iso8601_duration w raw).
Proof. unfold parse_iso8601_duration. stepping. Qed.

(** A turn asks for one page, first of all. *)
Lemma fetch_page_trace w pid token acc :
  exists rest,
    trace (fetch_page w pid token acc) = EPlaylistItemsList pid token :: rest
    /\ List.Forall (fun ev => is_page_request ev = false) rest.
Proof.
  unfold fetch_page. rewrite bind_emit. eexists. split; [reflexivity|].
  match goal with
  | |- List.Forall ?P (fst ?m) => change (emits P m)
  end.
  stepping; apply parse_iso8601_duration_events.
Qed.

Lemma fetch_page_halts w pid token acc : halts (fetch_page w pid token acc).
Proof.
  unfold fetch_page.
  stepping; apply total_halts; eexists; apply parse_iso8601_duration_result.
Qed.

(** The export is written by nothing but the last step of
    [fetch_channel_videos]. *)
Lemma fetch_pages_events w fuel : forall pid token videos,
  emits (fun ev => is_csv_write ev = false) (fetch_pages w fuel pid token videos).
Proof.
  induction fuel as [|fuel IH]; intros pid token videos; cbn [fetch_pages];
    [constructor|].
  apply emits_bind.
  - unfold fetch_page, parse_iso8601_duration. stepping.
  - intros [vs tok]. destruct (negb (truthy tok)); [apply emits_ret|apply IH].
Qed.

Lemma get_channel_id_from_url_events w url :
  emits (fun ev => is_csv_write ev = false) (get_channel_id_from_url w url).
Proof. unfold get_channel_id_from_url. stepping. Qed.

(** What [fetch_channel_videos] does with the rows of the loop, for a
    channel that resolves: when they can be encoded, they are written to
    the export and counted. *)
Lemma fetch_channel_videos_export w fuel url cid response pid title rows :
  snd (get_channel_id_from_url w url) = Done cid ->
  truthy cid = true ->
  channels_list w cid = inr response ->
  channel_listing response pid title ->
  snd (fetch_pages w fuel pid JNull []) = Done rows ->
  csv_encodable rows = true ->
  fetch_channel_videos w fuel url
  = (trace (get_channel_id_from_url w url)
       ++ EChannelsList cid
       :: trace (fetch_pages w fuel pid JNull [])
       ++ [EMakedirs
             (path_join (lit "transcripts")
                (sanitize_filename (unicode_alnum w) title
                   TRANSCRIPT_FILENAME_LENGTH));
           EWriteCsv
             (path_join
                (path_join (lit "transcripts")
                   (sanitize_filename (unicode_alnum w) title
                      TRANSCRIPT_FILENAME_LENGTH))
                (sanitize_filename (unicode_alnum w) title
                   TRANSCRIPT_FILENAME_LENGTH ++ lit ".csv"))
             csv_header rows;
           EPrint [T (lit "Fetched ");
                   V (JInt (Z.of_nat (List.length rows)));
                   T (lit " videos. Saved to ");
                   T (path_join
                        (path_join (lit "transcripts")
                           (sanitize_filename (unicode_alnum w) title
                              TRANSCRIPT_FILENAME_LENGTH))
                        (sanitize_filename (unicode_alnum w) title
                           TRANSCRIPT_FILENAME_LENGTH ++ lit ".csv"));
                   T (lit ".")]],
     Done tt).
Proof.
  intros Hcid Htruthy Hresp Hlisting Hrows Henc.
  destruct Hlisting
    as (first & others & cd & related & sn & Hi & Hcd & Hrel & Hup & Hsn & Hti).
  unfold fetch_channel_videos.
  rewrite (bind_done _ _ _ Hcid), Htruthy. cbn [negb].
  rewrite bind_emit, Hresp, bind_lift_ok.
  unfold dict_item. rewrite Hi, bind_lift_ok.
  cbn [item0]. rewrite bind_lift_ok.
  cbn [item]. unfold dict_item.
  rewrite Hcd, bind_lift_ok. cbn [item]. unfold dict_item.
  rewrite Hrel, bind_lift_ok. cbn [item]. unfold dict_item.
  rewrite Hup, bind_lift_ok, Hsn, bind_lift_ok. cbn [item]. unfold dict_item.
  rewrite Hti, bind_lift_ok. cbn [sanitize_filename_arg].
  rewrite bind_lift_ok, (bind_done _ _ _ Hrows), bind_emit.
  unfold write_csv. rewrite Henc. unfold trace. reflexivity.
Qed.

(** C9, as the code has it: when the first page comes without a
    continuation token, the pagination loop ends after one turn, whatever
    the number of turns allowed: exactly one page is asked for.  The
    identifiers are those the entries of that page carry, in order; an
    entry that carries none is passed over with a printed message.  With
    no identifier there is no request for metadata and no row; otherwise
    there is one request, for all of them, and the rows collected are one
    per video of the provider's response: as many as the entries that
    carry an identifier exactly when the provider lists one video per
    identifier.  In every row, a duration that is missing or does not
    parse shows as zero seconds, "00:00".  For a channel that resolves to
    that playlist, [fetch_channel_videos] writes these rows, when they can
    be encoded, to the export and prints their number. *)
Theorem single_page_enumeration (w : World) (fuel : nat) (pid : json)
    (page : dict) :
  playlist_items_list w pid JNull = inr page ->
  truthy (dict_get page (lit "nextPageToken") JNull) = false ->
  let run := fetch_pages w (S fuel) pid JNull [] in
  halts run
  /\ pages_fetched (trace run) = 1%nat
  /\ (forall rows,
        snd run = Done rows ->
        exists items,
          iterate (dict_get page (lit "items") (JList [])) = inr items
          /\ (forall item_,
                List.In item_ items -> carries_video_id item_ = false ->
                List.In (skip_message item_) (trace run))
          /\ (page_video_ids items = [] ->
              rows = []
              /\ List.filter is_videos_request (trace run) = [])
          /\ (page_video_ids items <> [] ->
              exists joined response listed,
                join_ids (page_video_ids items) = inr joined
                /\ List.filter is_videos_request (trace run)
                   = [EVideosList joined]
                /\ videos_list w joined = inr response
                /\ iterate (dict_get response (lit "items") (JList []))
                   = inr listed
                /\ List.length rows = List.length listed
                /\ (List.length listed = List.length (page_video_ids items) ->
                    List.length rows
                    = List.length (List.filter carries_video_id items))
                /\ List.Forall2 (zero_when_unparsed w) listed rows))
  /\ (forall url cid response title rows,
        snd (get_channel_id_from_url w url) = Done cid ->
        truthy cid = true ->
        channels_list w cid = inr response ->
        channel_listing response pid title ->
        snd run = Done rows ->
        csv_encodable rows = true ->
        let name :=
          sanitize_filename (unicode_alnum w) title
            TRANSCRIPT_FILENAME_LENGTH in
        let file :=
          path_join (path_join (lit "transcripts") name)
            (name ++ lit ".csv") in
        fetch_channel_videos w (S fuel) url
        = (trace (get_channel_id_from_url w url)
             ++ EChannelsList cid
             :: trace run
             ++ [EMakedirs (path_join (lit "transcripts") name);
                 EWriteCsv file csv_header rows;
                 EPrint [T (lit "Fetched ");
                         V (JInt (Z.of_nat (List.length rows)));
                         T (lit " videos. Saved to "); T file; T (lit ".")]],
           Done tt)).
Proof.
  intros Hpage Htoken run.
  destruct (fetch_page_trace w pid JNull []) as (rest & Htrace & Hrest).
  pose proof (fetch_page_halts w pid JNull []) as Hhalts.
  assert (Hrun : run = bind (fetch_page w pid JNull [])
                         (fun p => ret (fst p))).
  { unfold run. cbn [fetch_pages]. unfold bind.
    destruct (snd (fetch_page w pid JNull [])) as [[videos token]| |] eqn:Hs;
      [|reflexivity..].
    destruct (fetch_page_spec w pid JNull page [] videos token Hpage Hs)
      as [-> _].
    rewrite Htoken. reflexivity. }
  assert (Hcount : pages_fetched (EPlaylistItemsList pid JNull :: rest) = 1%nat).
  { unfold pages_fetched. cbn [List.filter is_page_request List.length].
    f_equal. rewrite (filter_none _ _ Hrest). reflexivity. }
  split; [|split; [|split]].
  - rewrite Hrun. apply halts_bind; [assumption|]. intros p. apply halts_ret.
  - rewrite Hrun. unfold trace, bind in *.
    destruct (snd (fetch_page w pid JNull [])); cbn [fst ret];
      rewrite ?List.app_nil_r, Htrace; exact Hcount.
  - intros rows Hrows. rewrite Hrun in Hrows.
    apply bind_done_inv in Hrows as ([videos token] & Hs & Hret).
    apply ret_done_inv in Hret. cbn [fst] in Hret. subst videos.
    assert (Htr : trace run = trace (fetch_page w pid JNull [])).
    { rewrite Hrun. unfold trace, bind. rewrite Hs. cbn [fst ret].
      apply List.app_nil_r. }
    rewrite Htr.
    destruct (fetch_page_spec w pid JNull page [] rows token Hpage Hs)
      as (_ & items & Hitems & Hskip & Hnone & Hsome).
    exists items. split; [exact Hitems|]. split; [exact Hskip|].
    split; [exact Hnone|].
    intros Hne.
    destruct (Hsome Hne) as (joined & response & listed & new & Hj & Hreq
                             & Hr & Hl & -> & Hrows).
    cbn [List.app] in *. exists joined, response, listed.
    pose proof (List.Forall2_length Hrows) as Hll.
    split; [exact Hj|]. split; [exact Hreq|]. split; [exact Hr|].
    split; [exact Hl|]. split; [congruence|]. split; [|exact Hrows].
    intros Hlen. unfold page_video_ids in Hlen.
    rewrite List.length_map in Hlen. congruence.
  - intros url cid response title rows Hcid Htruthy Hresp Hlisting Hrows Henc
      name file.
    apply (fetch_channel_videos_export w (S fuel) url cid response pid title
             rows); assumption.
Qed.

(** A channel whose uploads are a page of three entries, two of them with
    an identifier, both listed by the provider, the second without a
    duration: one page, one request for the two identifiers, two rows, and
    the export. *)
Lemma single_page_enumeration_witness :
  pages_fetched (trace (fetch_pages world_uploads 1 sample_playlist JNull []))
  = 1%nat
  /\ List.filter is_videos_request
       (trace (fetch_pages world_uploads 1 sample_playlist JNull []))
     = [EVideosList (lit "dQw4w9WgXcQ,aaaaaaaaaaa")]
  /\ exists row1 row2,
       snd (fetch_pages world_uploads 1 sample_playlist JNull [])
       = Done [row1; row2]
       /\ duration_column row1 = JStr (lit "01:01")
       /\ duration_column row2 = JStr (lit "00:00")
       /\ List.In
            (EWriteCsv (lit "transcripts/Rocq/Rocq.csv") csv_header
               [row1; row2])
            (trace (fetch_channel_videos world_uploads 1 sample_channel_url)).
Proof.
  destruct (single_page_enumeration world_uploads 0 sample_playlist sample_page
              eq_refl eq_refl) as (_ & Hpages & Hrows & Hexport).
  split; [exact Hpages|].
  destruct (Hrows _ eq_refl) as (items & Hitems & _ & _ & Hsome).
  injection Hitems as <-.
  destruct Hsome as (joined & response & listed & Hj & Hreq & _);
    [discriminate|].
  injection Hj as <-. split; [exact Hreq|].
  eexists _, _. split; [reflexivity|]. split; [reflexivity|].
  split; [reflexivity|].
  rewrite (Hexport sample_channel_url (JStr (lit "UCrocq")) sample_channel
             (lit "Rocq") _ eq_refl eq_refl eq_refl
             ltac:(repeat eexists) eq_refl eq_refl).
  vm_compute. tauto.
Defined.

(** C9, as stated, fails: when the provider lists none of the videos of
    the page (they are private, or were deleted), no row is collected,
    though two entries of the page carry an identifier. *)
Lemma rows_not_one_per_identifier :
  ~ (forall (w : World) (fuel : nat) (pid : json) (page : dict) rows items,
       playlist_items_list w pid JNull = inr page ->
       truthy (dict_get page (lit "nextPageToken") JNull) = false ->
       snd (fetch_pages w (S fuel) pid JNull []) = Done rows ->
       iterate (dict_get page (lit "items") (JList [])) = inr items ->
       List.length rows = List.length (List.filter carries_video_id items)).
Proof.
  intros H.
  specialize (H world_private 0%nat sample_playlist sample_page [] _
                eq_refl eq_refl eq_refl eq_refl).
  vm_compute in H. discriminate.
Qed.
